(** * Difficulty-retarget estimator of the lokichain explorer backend

    A shallow embedding of [backend/src/api/difficulty-adjustment.ts] and the
    properties of its compact-target decoder, percentage engine, retarget
    estimator and facade.

    JavaScript [number]s are IEEE 754 binary64 values.  They are modelled by
    the Standard Library's [spec_float] at precision 53 and maximal exponent
    1024, with the library's own correctly rounded operations; [bigint]s are
    [Z]; int32 results of the bit operators are [Z] as well. *)

From Stdlib Require Import ZArith Lia Bool List String Ascii.
From Stdlib Require Import Floats.SpecFloat.
Import ListNotations.

Local Open Scope Z_scope.

(** ** JavaScript numbers *)

Module JS.

Definition number : Type := spec_float.

Definition prec : Z := 53.
Definition emax : Z := 1024.

Definition add : number -> number -> number := SFadd prec emax.
Definition sub : number -> number -> number := SFsub prec emax.
Definition mul : number -> number -> number := SFmul prec emax.
Definition div : number -> number -> number := SFdiv prec emax.
Definition neg : number -> number := SFopp.

(** [a < b], [a <= b], [a > b], [a >= b] and [a === b]: all false on NaN. *)
Definition lt (a b : number) : bool := SFltb a b.
Definition le (a b : number) : bool := SFleb a b.
Definition gt (a b : number) : bool := SFltb b a.
Definition ge (a b : number) : bool := SFleb b a.
Definition eq (a b : number) : bool := SFeqb a b.

(** [Number(z)] for a bigint [z], also the value of an integer literal:
    round to nearest, ties to even, overflow to infinity. *)
Definition of_Z (z : Z) : number := binary_normalize prec emax z 0 false.

Definition NaN : number := S754_nan.

Definition is_nan (x : number) : bool :=
  match x with S754_nan => true | _ => false end.

Definition is_zero (x : number) : bool :=
  match x with S754_zero _ => true | _ => false end.

Definition is_finite (x : number) : bool :=
  match x with S754_finite _ _ _ => true | _ => false end.

(** ToBoolean on a number: [0], [-0] and [NaN] are falsy. *)
Definition truthy (x : number) : bool :=
  match x with
  | S754_zero _ | S754_nan => false
  | _ => true
  end.

(** The integer a number denotes, when it denotes one. *)
Definition to_Z (x : number) : option Z :=
  match x with
  | S754_zero _ => Some 0
  | S754_finite s m e =>
      if 0 <=? e then Some (cond_Zopp s (Zpos m * 2 ^ e))
      else if Zpos m mod 2 ^ (- e) =? 0
           then Some (cond_Zopp s (Zpos m / 2 ^ (- e)))
           else None
  | _ => None
  end.

(** [Number.isInteger]. *)
Definition isInteger (x : number) : bool :=
  match to_Z x with Some _ => true | None => false end.

(** Truncation towards zero, the first step of ToInt32 and ToUint32
    (NaN and the infinities go to 0). *)
Definition trunc (x : number) : Z :=
  match x with
  | S754_finite s m e =>
      cond_Zopp s (if 0 <=? e then Zpos m * 2 ^ e else Zpos m / 2 ^ (- e))
  | _ => 0
  end.

Definition ToUint32 (x : number) : Z := trunc x mod 2 ^ 32.

Definition ToInt32 (x : number) : Z :=
  let u := ToUint32 x in if u <? 2 ^ 31 then u else u - 2 ^ 32.

(** [x >>> k] and [x & mask] for a number [x] and literal [k], [mask]. *)
Definition ushr (x : number) (k : Z) : Z := Z.shiftr (ToUint32 x) (k mod 32).
Definition band (x : number) (mask : Z) : Z := Z.land (ToInt32 x) mask.

(** [Math.max] and [Math.min] of two arguments: NaN if either is NaN,
    and [+0] counts as larger than [-0]. *)
Definition Math_max (a b : number) : number :=
  match SFcompare a b with
  | None => S754_nan
  | Some Lt => b
  | Some Gt => a
  | Some Eq => match a with S754_zero true => b | _ => a end
  end.

Definition Math_min (a b : number) : number :=
  match SFcompare a b with
  | None => S754_nan
  | Some Lt => a
  | Some Gt => b
  | Some Eq => match a with S754_zero false => b | _ => a end
  end.

(** [Math.floor]: the largest integer not above [x]; zeros, infinities and
    NaN are returned as they are. *)
Definition Math_floor (x : number) : number :=
  match x with
  | S754_finite s m e =>
      if 0 <=? e then x
      else
        let q := Zpos m / 2 ^ (- e) in
        if s then
          if Zpos m mod 2 ^ (- e) =? 0 then neg (of_Z q) else neg (of_Z (q + 1))
        else of_Z q
  | _ => x
  end.

(** The remainder operator [n % d]: exact, with the sign of the dividend. *)
Definition rem (n d : number) : number :=
  match n, d with
  | S754_nan, _ | _, S754_nan => S754_nan
  | S754_infinity _, _ => S754_nan
  | _, S754_zero _ => S754_nan
  | _, S754_infinity _ => n
  | S754_zero _, _ => n
  | S754_finite sn mn en, S754_finite _ md ed =>
      let ez := Z.min en ed in
      let r := (Zpos mn * 2 ^ (en - ez)) mod (Zpos md * 2 ^ (ed - ez)) in
      match r with
      | 0 => S754_zero sn
      | _ => binary_normalize prec emax (cond_Zopp sn r) ez false
      end
  end.

(** The literal [33.34]: the double nearest to 3334/100. *)
Definition lit_33_34 : number := S754_finite false 4692187861766636 (-47).

End JS.

Abbreviation number := JS.number.

(** ** Exceptions *)

Inductive exn : Type :=
| InvalidBits   (* new Error('Invalid bits') *)
| RangeError.   (* BigInt division by zero *)

Inductive result (A : Type) : Type :=
| Ok (a : A)
| Throw (e : exn).
Arguments Ok {A} a.
Arguments Throw {A} e.

Definition bind {A B : Type} (r : result A) (k : A -> result B) : result B :=
  match r with
  | Ok a => k a
  | Throw e => Throw e
  end.

Notation "x <- r ;; k" := (bind r (fun x => k))
  (at level 61, r at next level, right associativity).

(** ** Compact target helpers *)

Definition compactToTarget (bits : number) : result Z :=
  if negb (JS.isInteger bits) || JS.le bits (JS.of_Z 0) then Throw InvalidBits
  else
    let exp := Z.land (JS.ushr bits 24) 255 in
    let mant := JS.band bits 8388607 in
    if negb (JS.band bits 8388608 =? 0) || (mant =? 0) then Throw InvalidBits
    else if exp <=? 3 then Ok (Z.shiftr mant (8 * (3 - exp)))
    else Ok (Z.shiftl mant (8 * (exp - 3))).

Definition SCALE : Z := 1000000.

(** BigInt division: truncating, and a RangeError on a zero divisor. *)
Definition bigint_div (a b : Z) : result Z :=
  if b =? 0 then Throw RangeError else Ok (Z.quot a b).

Definition pctChangeFromBits (oldBits newBits : number) : result number :=
  oldT <- compactToTarget oldBits ;;
  newT <- compactToTarget newBits ;;
  ratioFp <- bigint_div (oldT * SCALE) newT ;;
  let ratio := JS.div (JS.of_Z ratioFp) (JS.of_Z SCALE) in
  Ok (JS.mul (JS.sub ratio (JS.of_Z 1)) (JS.of_Z 100)).

(** ** Activation height *)

Definition lower_ascii (c : ascii) : ascii :=
  let n := N_of_ascii c in
  if ((65 <=? n) && (n <=? 90))%N then ascii_of_N (n + 32) else c.

(** [String.prototype.toLowerCase] on the ASCII letters.  The only other
    code point that lowers to an ASCII letter is the Kelvin sign (to k),
    and no network name below contains a k. *)
Fixpoint toLowerCase (s : string) : string :=
  match s with
  | EmptyString => EmptyString
  | String c s' => String (lower_ascii c) (toLowerCase s')
  end.

(** [network || '']. *)
Definition or_empty (network : string) : string :=
  match network with
  | EmptyString => EmptyString
  | _ => network
  end.

Definition getActivationHeight (network : string) : number :=
  let n := toLowerCase (or_empty network) in
  if String.eqb n "mainnet" || String.eqb n "main" then JS.of_Z 115000
  else JS.of_Z 0.

Definition BLOCK_SECONDS_TARGET : number := JS.of_Z 60.
Definition TESTNET_MAX_BLOCK_SECONDS : number := JS.of_Z 1200.
Definition DIGI_MAX_UP : number := JS.lit_33_34.
Definition DIGI_MAX_DOWN : number := JS.neg JS.lit_33_34.

(** ** The block provider and the snapshot *)

Record Block : Type := { bits : number; timestamp : number }.

(** What the estimator and the facade read from [blocks]: [None] stands for
    a missing method or a result that is not of the expected type. *)
Record BlocksApi : Type := {
  getBlocks : option (list Block);
  getLastDifficultyAdjustmentTime : option number;
  getPreviousDifficultyRetarget : option number;
  getCurrentBlockHeight : option number;
  getQuarterEpochBlockTime : option number
}.

Record DifficultyAdjustment : Type := {
  progressPercent : number;
  difficultyChange : number;
  estimatedRetargetDate : number;
  remainingBlocks : number;
  remainingTime : number;
  previousRetarget : number;
  previousTime : number;
  nextRetargetHeight : number;
  timeAvg : number;
  adjustedTimeAvg : number;
  timeOffset : number;
  expectedBlocks : number
}.

(** [a[i]] on an array: [undefined] out of range. *)
Definition at_index {A : Type} (a : list A) (i : Z) : option A :=
  if i <? 0 then None else nth_error a (Z.to_nat i).

(** [blocks.getBlocks?.() ?? []]. *)
Definition blocksCache (blocks : BlocksApi) : list Block :=
  match getBlocks blocks with Some c => c | None => [] end.

(** ** The two-argument change between bits *)

(** [calcBitsDifference], with [config.MEMPOOL.NETWORK] as an argument.
    Here [getCurrentBlockHeight] is [Some h] when the method exists and
    returns the number [h], and [None] when the provider has no such
    method, which gives height 0. *)
Definition calcBitsDifference
    (blocks : BlocksApi) (network : string) (oldBits newBits : number)
  : result number :=
  let height :=
    match getCurrentBlockHeight blocks with
    | Some h => h
    | None => JS.of_Z 0
    end in
  let activation := getActivationHeight network in
  raw <- pctChangeFromBits oldBits newBits ;;
  if JS.lt height activation
  then Ok (JS.Math_max (JS.Math_min raw (JS.of_Z 300)) (JS.of_Z (-75)))
  else Ok (JS.Math_max (JS.Math_min raw DIGI_MAX_UP) DIGI_MAX_DOWN).

(** ** Legacy (pre-activation) view: the locals of the first branch *)

Module Legacy.

Definition EPOCH_BLOCK_LENGTH : number := JS.of_Z 1.

Definition diffSeconds (nowSeconds DATime : number) : number :=
  JS.Math_max (JS.of_Z 0) (JS.sub nowSeconds DATime).

Definition blocksInEpoch (blockHeight : number) : number :=
  if JS.ge blockHeight (JS.of_Z 0) then JS.rem blockHeight EPOCH_BLOCK_LENGTH
  else JS.of_Z 0.

Definition progressPercent (blockHeight : number) : number :=
  if JS.ge blockHeight (JS.of_Z 0)
  then JS.mul (JS.div (blocksInEpoch blockHeight) EPOCH_BLOCK_LENGTH) (JS.of_Z 100)
  else JS.of_Z 100.

Definition remainingBlocks (blockHeight : number) : number :=
  JS.sub EPOCH_BLOCK_LENGTH (blocksInEpoch blockHeight).

Definition nextRetargetHeight (blockHeight : number) : number :=
  if JS.ge blockHeight (JS.of_Z 0)
  then JS.add blockHeight (remainingBlocks blockHeight)
  else JS.of_Z 0.

Definition expectedBlocks (nowSeconds DATime : number) : number :=
  JS.div (diffSeconds nowSeconds DATime) BLOCK_SECONDS_TARGET.

Definition actualTimespan
    (DATime nowSeconds blockHeight latestBlockTimestamp : number) : number :=
  JS.sub (if JS.eq (blocksInEpoch blockHeight) (JS.of_Z 2015)
          then latestBlockTimestamp else nowSeconds)
         DATime.

(** [timeAvgSecs] as first assigned, before the testnet cap. *)
Definition timeAvgSecs (DATime nowSeconds blockHeight : number) : number :=
  if JS.truthy (blocksInEpoch blockHeight)
  then JS.div (diffSeconds nowSeconds DATime) (blocksInEpoch blockHeight)
  else BLOCK_SECONDS_TARGET.

(** [quarterEpochTime && blocksInEpoch < 503]. *)
Definition smoothing (quarterEpochTime : option number) (blockHeight : number)
  : option number :=
  match quarterEpochTime with
  | Some q =>
      if JS.truthy q && JS.lt (blocksInEpoch blockHeight) (JS.of_Z 503)
      then Some q else None
  | None => None
  end.

Definition adjustedTimeSpan (DATime q nowSeconds previousRetarget : number)
  : number :=
  let timeLastEpoch := JS.sub DATime q in
  let adjustedTimeLastEpoch :=
    JS.mul timeLastEpoch
           (JS.add (JS.of_Z 1) (JS.div previousRetarget (JS.of_Z 100))) in
  JS.add (diffSeconds nowSeconds DATime) adjustedTimeLastEpoch.

Definition adjustedTimeAvgSecs
    (DATime : number) (quarterEpochTime : option number)
    (nowSeconds blockHeight previousRetarget : number) : number :=
  match smoothing quarterEpochTime blockHeight with
  | Some q =>
      JS.div (adjustedTimeSpan DATime q nowSeconds previousRetarget)
             (JS.of_Z 503)
  | None => timeAvgSecs DATime nowSeconds blockHeight
  end.

(** [difficultyChange] as assigned by the if/else, before the clamp. *)
Definition rawDifficultyChange
    (DATime : number) (quarterEpochTime : option number)
    (nowSeconds blockHeight previousRetarget latestBlockTimestamp : number)
  : number :=
  match smoothing quarterEpochTime blockHeight with
  | Some q =>
      JS.mul
        (JS.sub
           (JS.div BLOCK_SECONDS_TARGET
              (JS.div (adjustedTimeSpan DATime q nowSeconds previousRetarget)
                      (JS.of_Z 504)))
           (JS.of_Z 1))
        (JS.of_Z 100)
  | None =>
      JS.mul
        (JS.sub
           (JS.div BLOCK_SECONDS_TARGET
              (JS.div
                 (actualTimespan DATime nowSeconds blockHeight
                                 latestBlockTimestamp)
                 (JS.add (blocksInEpoch blockHeight) (JS.of_Z 1))))
           (JS.of_Z 1))
        (JS.of_Z 100)
  end.

(** The two [if]s of the legacy clamp. *)
Definition clamp (difficultyChange : number) : number :=
  let d := if JS.gt difficultyChange (JS.of_Z 300) then JS.of_Z 300
           else difficultyChange in
  if JS.lt d (JS.of_Z (-75)) then JS.of_Z (-75) else d.

Definition isTestnet (network : string) : bool :=
  String.eqb (toLowerCase (or_empty network)) "testnet".

(** [timeAvgSecs] after the testnet cap. *)
Definition cappedTimeAvgSecs
    (DATime nowSeconds blockHeight : number) (network : string) : number :=
  let t := timeAvgSecs DATime nowSeconds blockHeight in
  if isTestnet network
  then if JS.gt t TESTNET_MAX_BLOCK_SECONDS then TESTNET_MAX_BLOCK_SECONDS else t
  else t.

Definition timeOffset
    (DATime nowSeconds blockHeight : number) (network : string)
    (latestBlockTimestamp : number) : number :=
  if isTestnet network then
    let secondsSinceLastBlock := JS.sub nowSeconds latestBlockTimestamp in
    if JS.gt (JS.add secondsSinceLastBlock
                (cappedTimeAvgSecs DATime nowSeconds blockHeight network))
             TESTNET_MAX_BLOCK_SECONDS
    then JS.mul
           (JS.neg (JS.Math_min secondsSinceLastBlock TESTNET_MAX_BLOCK_SECONDS))
           (JS.of_Z 1000)
    else JS.of_Z 0
  else JS.of_Z 0.

End Legacy.

(** ** Digishield per-block view: the locals after the first branch *)

Module Digishield.

Definition latest (cache : list Block) : option Block :=
  at_index cache (Z.of_nat (List.length cache) - 1).

Definition prev (cache : list Block) : option Block :=
  at_index cache (Z.of_nat (List.length cache) - 2).

Definition clamp (raw : number) : number :=
  JS.Math_max (JS.Math_min raw DIGI_MAX_UP) DIGI_MAX_DOWN.

Definition perBlockChange (cache : list Block) : result number :=
  match latest cache, prev cache with
  | Some l, Some p =>
      raw <- pctChangeFromBits (bits p) (bits l) ;;
      Ok (clamp raw)
  | _, _ => Ok (JS.of_Z 0)
  end.

Definition timeAvgSecs (nowSeconds latestBlockTimestamp : number) : number :=
  let m := JS.Math_max (JS.of_Z 1) (JS.sub nowSeconds latestBlockTimestamp) in
  if JS.truthy m then m else BLOCK_SECONDS_TARGET.

End Digishield.

(** ** The estimator and its facade *)

(** The object returned by the pre-activation branch. *)
Definition legacySnapshot
    (DATime : number) (quarterEpochTime : option number)
    (nowSeconds blockHeight previousRetarget : number) (network : string)
    (latestBlockTimestamp : number) : DifficultyAdjustment :=
  let timeAvg :=
    JS.Math_floor
      (JS.mul (Legacy.cappedTimeAvgSecs DATime nowSeconds blockHeight network)
              (JS.of_Z 1000)) in
  let adjustedTimeAvg :=
    JS.Math_floor
      (JS.mul (Legacy.adjustedTimeAvgSecs DATime quarterEpochTime nowSeconds
                                   blockHeight previousRetarget)
              (JS.of_Z 1000)) in
  let remainingTime := JS.mul (Legacy.remainingBlocks blockHeight) adjustedTimeAvg in
  let estimatedRetargetDate :=
    JS.add remainingTime (JS.mul nowSeconds (JS.of_Z 1000)) in
  {| progressPercent := Legacy.progressPercent blockHeight;
     difficultyChange :=
       Legacy.clamp (Legacy.rawDifficultyChange DATime quarterEpochTime nowSeconds
                blockHeight previousRetarget latestBlockTimestamp);
     estimatedRetargetDate := estimatedRetargetDate;
     remainingBlocks := Legacy.remainingBlocks blockHeight;
     remainingTime := remainingTime;
     previousRetarget := previousRetarget;
     previousTime := DATime;
     nextRetargetHeight := Legacy.nextRetargetHeight blockHeight;
     timeAvg := timeAvg;
     adjustedTimeAvg := adjustedTimeAvg;
     timeOffset :=
       Legacy.timeOffset DATime nowSeconds blockHeight network latestBlockTimestamp;
     expectedBlocks := Legacy.expectedBlocks nowSeconds DATime |}.

(** The object returned after the first branch. *)
Definition digishieldSnapshot
    (perBlockChange DATime nowSeconds blockHeight previousRetarget
     latestBlockTimestamp : number) : DifficultyAdjustment :=
  let timeAvg :=
    JS.Math_floor
      (JS.mul (Digishield.timeAvgSecs nowSeconds latestBlockTimestamp) (JS.of_Z 1000)) in
  let adjustedTimeAvg :=
    JS.Math_floor (JS.mul BLOCK_SECONDS_TARGET (JS.of_Z 1000)) in
  let remainingTime := adjustedTimeAvg in
  {| progressPercent := JS.of_Z 100;
     difficultyChange := perBlockChange;
     estimatedRetargetDate :=
       JS.add (JS.mul nowSeconds (JS.of_Z 1000)) remainingTime;
     remainingBlocks := JS.of_Z 1;
     remainingTime := remainingTime;
     previousRetarget := previousRetarget;
     previousTime := DATime;
     nextRetargetHeight := JS.add blockHeight (JS.of_Z 1);
     timeAvg := timeAvg;
     adjustedTimeAvg := adjustedTimeAvg;
     timeOffset := JS.of_Z 0;
     expectedBlocks := JS.of_Z 1 |}.

Definition calcDifficultyAdjustment
    (blocks : BlocksApi)
    (DATime : number) (quarterEpochTime : option number)
    (nowSeconds blockHeight previousRetarget : number) (network : string)
    (latestBlockTimestamp : number) : result DifficultyAdjustment :=
  let activation := getActivationHeight network in
  if JS.lt blockHeight activation then
    Ok (legacySnapshot DATime quarterEpochTime nowSeconds blockHeight
          previousRetarget network latestBlockTimestamp)
  else
    perBlockChange <- Digishield.perBlockChange (blocksCache blocks) ;;
    Ok (digishieldSnapshot perBlockChange DATime nowSeconds blockHeight
          previousRetarget latestBlockTimestamp).

(** [getDifficultyAdjustment], with [Date.now()] and
    [config.MEMPOOL.NETWORK] as arguments; [Ok None] is the [null] result. *)
Definition getDifficultyAdjustment
    (blocks : BlocksApi) (dateNow : number) (network : string)
  : result (option DifficultyAdjustment) :=
  let blockHeight :=
    match getCurrentBlockHeight blocks with
    | Some h => h
    | None => JS.of_Z 0
    end in
  match Digishield.latest (blocksCache blocks),
        getLastDifficultyAdjustmentTime blocks,
        getPreviousDifficultyRetarget blocks with
  | Some latest, Some DATime, Some previousRetarget =>
      let nowSeconds := JS.Math_floor (JS.div dateNow (JS.of_Z 1000)) in
      d <- calcDifficultyAdjustment blocks DATime
             (getQuarterEpochBlockTime blocks) nowSeconds blockHeight
             previousRetarget network (timestamp latest) ;;
      Ok (Some d)
  | _, _, _ => Ok None
  end.

(** ** What the specification says of a compact target *)

(** The fields of a compact target read off the integer [z] arithmetically:
    bits 24..31, bits 0..22 and bit 23. *)
Definition exponent (z : Z) : Z := (z / 2 ^ 24) mod 2 ^ 8.
Definition mantissa (z : Z) : Z := z mod 2 ^ 23.
Definition signBit (z : Z) : bool := Z.testbit z 23.

(** A valid compact target: a positive integer, sign bit clear, mantissa
    not zero. *)
Definition validCompact (bits : number) : bool :=
  match JS.to_Z bits with
  | Some z => (0 <? z) && negb (signBit z) && negb (mantissa z =? 0)
  | None => false
  end.

(** The target the specification assigns to the integer [z]. *)
Definition decodedTarget (z : Z) : Z :=
  if exponent z <=? 3
  then Z.shiftr (mantissa z) (8 * (3 - exponent z))
  else Z.shiftl (mantissa z) (8 * (exponent z - 3)).

(** [x] is a zero, a finite number or an infinity of sign [s]. *)
Definition has_sign (s : bool) (x : number) : bool :=
  match x with
  | S754_zero s' | S754_infinity s' | S754_finite s' _ _ => Bool.eqb s' s
  | S754_nan => false
  end.

(** ** Sample inputs *)

(** [0x1d00ffff], [0x1d01ffff] and [0x01000001] as compact targets. *)
Definition bits_1d00ffff : number := JS.of_Z 486604799.
Definition bits_1d01ffff : number := JS.of_Z 486670335.
Definition bits_01000001 : number := JS.of_Z 16777217.

Definition block (b t : Z) : Block :=
  {| bits := JS.of_Z b; timestamp := JS.of_Z t |}.

(** A provider whose cache ends with a block at [0x1d00ffff] followed by
    one at the twice easier [0x1d01ffff], at the mainnet activation height. *)
Definition easierBlocks : BlocksApi :=
  {| getBlocks := Some [block 486604799 1000; block 486670335 1060];
     getLastDifficultyAdjustmentTime := Some (JS.of_Z 1000);
     getPreviousDifficultyRetarget := Some (JS.of_Z 5);
     getCurrentBlockHeight := Some (JS.of_Z 115000);
     getQuarterEpochBlockTime := None |}.

(** The same two blocks in the other order: the latest is twice harder. *)
Definition harderBlocks : BlocksApi :=
  {| getBlocks := Some [block 486670335 1000; block 486604799 1060];
     getLastDifficultyAdjustmentTime := Some (JS.of_Z 1000);
     getPreviousDifficultyRetarget := Some (JS.of_Z 5);
     getCurrentBlockHeight := Some (JS.of_Z 115000);
     getQuarterEpochBlockTime := None |}.

(** A provider with an empty cache and no baseline. *)
Definition emptyBlocks : BlocksApi :=
  {| getBlocks := None;
     getLastDifficultyAdjustmentTime := None;
     getPreviousDifficultyRetarget := Some (JS.of_Z 5);
     getCurrentBlockHeight := Some (JS.of_Z 120000);
     getQuarterEpochBlockTime := None |}.

(** A provider whose two cached blocks differ by one unit of mantissa. *)
Definition closeBlocks : BlocksApi :=
  {| getBlocks := Some [block 486604799 1000; block 486604798 1060];
     getLastDifficultyAdjustmentTime := Some (JS.of_Z 1000);
     getPreviousDifficultyRetarget := Some (JS.of_Z 5);
     getCurrentBlockHeight := Some (JS.of_Z 115000);
     getQuarterEpochBlockTime := None |}.

(** The height [calcBitsDifference] compares with the activation height. *)
Definition currentHeight (blocks : BlocksApi) : number :=
  match getCurrentBlockHeight blocks with
  | Some h => h
  | None => JS.of_Z 0
  end.

(** * Properties *)

(** ** The number model on concrete values *)

Example lit_33_34_nearest :
  JS.div (JS.of_Z 3334) (JS.of_Z 100) = JS.lit_33_34.
Proof. reflexivity. Qed.

Example of_Z_rounds_to_even : JS.of_Z (2 ^ 53 + 1) = JS.of_Z (2 ^ 53).
Proof. reflexivity. Qed.

Example of_Z_overflows : JS.of_Z (2 ^ 1024) = S754_infinity false.
Proof. vm_compute. reflexivity. Qed.

Example floor_minus_3_5 :
  JS.Math_floor (JS.div (JS.of_Z (-7)) (JS.of_Z 2)) = JS.of_Z (-4).
Proof. reflexivity. Qed.

Example rem_minus_3_5 :
  JS.rem (JS.div (JS.of_Z (-7)) (JS.of_Z 2)) (JS.of_Z 1) =
  JS.div (JS.of_Z (-1)) (JS.of_Z 2).
Proof. reflexivity. Qed.

Example max_of_zeros :
  JS.Math_max (S754_zero true) (S754_zero false) = S754_zero false /\
  JS.Math_min (S754_zero false) (S754_zero true) = S754_zero true.
Proof. split; reflexivity. Qed.

Example sixty_over_zero_clamps_to_300 :
  Legacy.clamp
    (JS.mul (JS.sub (JS.div BLOCK_SECONDS_TARGET (JS.of_Z 0)) (JS.of_Z 1))
            (JS.of_Z 100)) = JS.of_Z 300.
Proof. reflexivity. Qed.

Example compactToTarget_1d00ffff :
  compactToTarget bits_1d00ffff = Ok (65535 * 2 ^ 208).
Proof. reflexivity. Qed.

Example compactToTarget_fraction :
  compactToTarget (JS.div (JS.of_Z 1) (JS.of_Z 2)) = Throw InvalidBits.
Proof. reflexivity. Qed.

Example compactToTarget_sign_bit :
  compactToTarget (JS.of_Z 478150657) = Throw InvalidBits.
Proof. reflexivity. Qed.

(** ** Integers held in numbers *)

Lemma of_Z_0 : JS.of_Z 0 = S754_zero false.
Proof. reflexivity. Qed.

Lemma pow2_pos (n : Z) : 0 <= n -> 0 < 2 ^ n.
Proof. intros; apply Z.pow_pos_nonneg; lia. Qed.

Lemma to_Z_finite_pos s m e z :
  JS.to_Z (S754_finite s m e) = Some z -> exists k, 0 < k /\ z = cond_Zopp s k.
Proof.
  unfold JS.to_Z.
  destruct (0 <=? e) eqn:He.
  - intros [= <-]. exists (Zpos m * 2 ^ e); split; [|reflexivity].
    apply Z.leb_le in He. pose proof (pow2_pos e He). nia.
  - apply Z.leb_gt in He.
    destruct (Zpos m mod 2 ^ (- e) =? 0) eqn:Hm; [|discriminate].
    intros [= <-]. exists (Zpos m / 2 ^ (- e)); split; [|reflexivity].
    apply Z.eqb_eq in Hm.
    assert (Hp : 0 < 2 ^ (- e)) by (apply pow2_pos; lia).
    pose proof (Z.div_mod (Zpos m) (2 ^ (- e)) ltac:(lia)) as Hd.
    rewrite Hm in Hd. nia.
Qed.

Lemma to_Z_trunc x z : JS.to_Z x = Some z -> JS.trunc x = z.
Proof.
  destruct x as [s|s| |s m e]; simpl; try discriminate.
  - now intros [= <-].
  - destruct (0 <=? e); [now intros [= <-]|].
    destruct (_ =? 0); [now intros [= <-]|discriminate].
Qed.

Lemma to_Z_le_0 x z : JS.to_Z x = Some z -> JS.le x (JS.of_Z 0) = (z <=? 0).
Proof.
  intros H. rewrite of_Z_0.
  destruct x as [s|s| |s m e]; try discriminate.
  - simpl in H. injection H as <-. reflexivity.
  - destruct (to_Z_finite_pos _ _ _ _ H) as (k & Hk & ->).
    destruct s; simpl; symmetry; [apply Z.leb_le|apply Z.leb_gt]; lia.
Qed.

(** ** The bit operators against the arithmetic reading *)

Lemma ToInt32_mod x : JS.ToInt32 x mod 2 ^ 32 = JS.trunc x mod 2 ^ 32.
Proof.
  unfold JS.ToInt32, JS.ToUint32.
  destruct (_ <? _).
  - apply Z.mod_mod. discriminate.
  - replace (JS.trunc x mod 2 ^ 32 - 2 ^ 32)
      with (JS.trunc x mod 2 ^ 32 + (-1) * 2 ^ 32) by ring.
    rewrite Z.mod_add by discriminate. apply Z.mod_mod. discriminate.
Qed.

Lemma mod_low (a b n k : Z) :
  0 <= n <= k -> a mod 2 ^ k = b mod 2 ^ k -> a mod 2 ^ n = b mod 2 ^ n.
Proof.
  intros Hn H.
  assert (Hd : (2 ^ n | 2 ^ k)).
  { exists (2 ^ (k - n)). rewrite <- Z.pow_add_r by lia. f_equal. lia. }
  rewrite <- (Z.mod_mod_divide a (2 ^ k) (2 ^ n) Hd).
  rewrite <- (Z.mod_mod_divide b (2 ^ k) (2 ^ n) Hd).
  now rewrite H.
Qed.

Lemma band_mantissa x z :
  JS.to_Z x = Some z -> JS.band x 8388607 = mantissa z.
Proof.
  intros H. unfold JS.band, mantissa.
  change 8388607 with (Z.ones 23). rewrite Z.land_ones by lia.
  apply (mod_low _ _ 23 32); [lia|].
  rewrite ToInt32_mod. now rewrite (to_Z_trunc _ _ H).
Qed.

Lemma testbit_low (a b n k : Z) :
  0 <= n < k -> a mod 2 ^ k = b mod 2 ^ k -> Z.testbit a n = Z.testbit b n.
Proof.
  intros Hn H.
  rewrite <- (Z.mod_pow2_bits_low a k n), <- (Z.mod_pow2_bits_low b k n) by lia.
  now rewrite H.
Qed.

Lemma land_pow2_eqb (a n : Z) :
  0 <= n -> (Z.land a (2 ^ n) =? 0) = negb (Z.testbit a n).
Proof.
  intros Hn. destruct (Z.testbit a n) eqn:Hb; simpl.
  - apply Z.eqb_neq. intros H0.
    assert (Ht : Z.testbit (Z.land a (2 ^ n)) n = true)
      by (rewrite Z.land_spec, Hb, Z.pow2_bits_true; auto).
    rewrite H0, Z.bits_0 in Ht. discriminate.
  - apply Z.eqb_eq. apply Z.bits_inj'. intros i Hi.
    rewrite Z.land_spec, Z.bits_0, Z.pow2_bits_eqb by lia.
    destruct (Z.eqb_spec n i) as [<-|]; [now rewrite Hb|apply andb_false_r].
Qed.

Lemma band_signBit x z :
  JS.to_Z x = Some z -> (JS.band x 8388608 =? 0) = negb (signBit z).
Proof.
  intros H. unfold JS.band, signBit.
  change 8388608 with (2 ^ 23). rewrite land_pow2_eqb by lia. f_equal.
  apply (testbit_low _ _ 23 32); [lia|].
  rewrite ToInt32_mod. now rewrite (to_Z_trunc _ _ H).
Qed.

Lemma ushr_exponent x z :
  JS.to_Z x = Some z -> Z.land (JS.ushr x 24) 255 = exponent z.
Proof.
  intros H. unfold JS.ushr, JS.ToUint32, exponent.
  rewrite (to_Z_trunc _ _ H).
  change (24 mod 32) with 24. change 255 with (Z.ones 8).
  rewrite Z.land_ones, Z.shiftr_div_pow2 by lia.
  pose proof (Z.rem_mul_r z (2 ^ 24) (2 ^ 8) ltac:(discriminate) ltac:(lia)) as Hr.
  change (2 ^ 24 * 2 ^ 8) with (2 ^ 32) in Hr. rewrite Hr.
  rewrite (Z.mul_comm (2 ^ 24)), Z.div_add by discriminate.
  rewrite (Z.div_small (z mod 2 ^ 24)) by (apply Z.mod_pos_bound; reflexivity).
  simpl. apply Z.mod_mod. discriminate.
Qed.

(** [compactToTarget] on every number: it throws on the malformed ones and
    decodes the others as specified. *)
Lemma compactToTarget_eq (bits : number) :
  compactToTarget bits =
  if validCompact bits
  then match JS.to_Z bits with
       | Some z => Ok (decodedTarget z)
       | None => Throw InvalidBits
       end
  else Throw InvalidBits.
Proof.
  unfold compactToTarget, validCompact, JS.isInteger.
  destruct (JS.to_Z bits) as [z|] eqn:Hz; [|reflexivity]. simpl negb at 1.
  rewrite (to_Z_le_0 _ _ Hz), (band_signBit _ _ Hz), (band_mantissa _ _ Hz),
    (ushr_exponent _ _ Hz), negb_involutive.
  simpl orb at 1. rewrite Z.leb_antisym.
  destruct (0 <? z); simpl; [|reflexivity].
  destruct (signBit z); simpl; [reflexivity|].
  destruct (mantissa z =? 0); simpl; [reflexivity|].
  unfold decodedTarget. now destruct (exponent z <=? 3).
Qed.

(** ** Comparison of numbers *)

Lemma compare_antisym (a b : number) :
  SFcompare b a = option_map CompOpp (SFcompare a b).
Proof.
  destruct a as [sa|sa| |sa ma ea], b as [sb|sb| |sb mb eb]; simpl;
    try reflexivity; try (destruct sa; reflexivity);
    try (destruct sb; reflexivity);
    try (destruct sa, sb; reflexivity).
  destruct sa, sb; simpl; try reflexivity;
    rewrite (Z.compare_antisym ea eb);
    destruct (ea ?= eb); simpl; try reflexivity;
    now rewrite (Pos.compare_cont_antisym ma mb Eq).
Qed.

Lemma compare_refl (a : number) :
  JS.is_nan a = false -> SFcompare a a = Some Eq.
Proof.
  destruct a as [s|s| |s m e]; simpl; try discriminate; intros _.
  - reflexivity.
  - now destruct s.
  - rewrite Z.compare_refl, Pos.compare_cont_refl. now destruct s.
Qed.

Lemma compare_nan (a b : number) :
  SFcompare a b = None <-> JS.is_nan a = true \/ JS.is_nan b = true.
Proof.
  destruct a as [sa|sa| |sa ma ea], b as [sb|sb| |sb mb eb]; simpl;
    intuition discriminate.
Qed.

Lemma compare_some (a b : number) :
  JS.is_nan a = false -> JS.is_nan b = false ->
  exists c, SFcompare a b = Some c.
Proof.
  intros Ha Hb. destruct (SFcompare a b) as [c|] eqn:H; [now exists c|].
  apply compare_nan in H. destruct H; congruence.
Qed.

(** Not [a < b], on numbers that are not NaN, is [b <= a]. *)
Lemma not_lt_le (a b : number) :
  JS.is_nan a = false -> JS.is_nan b = false ->
  JS.lt a b = false -> JS.le b a = true.
Proof.
  intros Ha Hb. unfold JS.lt, JS.le, SFltb, SFleb.
  rewrite (compare_antisym a b).
  destruct (compare_some a b Ha Hb) as [c ->]. now destruct c.
Qed.

Lemma lt_not_ge (a b : number) : JS.lt a b = true -> JS.ge a b = false.
Proof.
  unfold JS.lt, JS.ge, SFltb, SFleb. rewrite (compare_antisym a b).
  now destruct (SFcompare a b) as [[]|].
Qed.

Lemma ge_not_lt (a b : number) : JS.ge a b = true -> JS.lt a b = false.
Proof.
  unfold JS.lt, JS.ge, SFltb, SFleb. rewrite (compare_antisym a b).
  now destruct (SFcompare a b) as [[]|].
Qed.

Lemma lt_le (a b : number) : JS.lt a b = true -> JS.le a b = true.
Proof. unfold JS.lt, JS.le, SFltb, SFleb. now destruct (SFcompare a b) as [[]|]. Qed.

Lemma le_refl (a : number) : JS.is_nan a = false -> JS.le a a = true.
Proof. intros H. unfold JS.le, SFleb. now rewrite compare_refl. Qed.

(** ** [Math.min] and [Math.max] *)

Lemma Math_min_nan (a b : number) :
  JS.is_nan (JS.Math_min a b) = JS.is_nan a || JS.is_nan b.
Proof.
  unfold JS.Math_min.
  destruct (SFcompare a b) as [c|] eqn:H.
  - assert (Hn : ~ (JS.is_nan a = true \/ JS.is_nan b = true))
      by (rewrite <- compare_nan, H; discriminate).
    destruct (JS.is_nan a) eqn:Ha; [tauto|].
    destruct (JS.is_nan b) eqn:Hb; [tauto|].
    destruct c; auto. destruct a as [[]| | |]; auto.
  - apply compare_nan in H. simpl. destruct H as [-> | ->]; auto using orb_true_r.
Qed.

Lemma Math_max_nan (a b : number) :
  JS.is_nan (JS.Math_max a b) = JS.is_nan a || JS.is_nan b.
Proof.
  unfold JS.Math_max.
  destruct (SFcompare a b) as [c|] eqn:H.
  - assert (Hn : ~ (JS.is_nan a = true \/ JS.is_nan b = true))
      by (rewrite <- compare_nan, H; discriminate).
    destruct (JS.is_nan a) eqn:Ha; [tauto|].
    destruct (JS.is_nan b) eqn:Hb; [tauto|].
    destruct c; auto. destruct a as [[]| | |]; auto.
  - apply compare_nan in H. simpl. destruct H as [-> | ->]; auto using orb_true_r.
Qed.

(** [Math.min a b] is one of its arguments, and below the second. *)
Lemma Math_min_cases (a b : number) :
  JS.is_nan a = false -> JS.is_nan b = false ->
  (JS.Math_min a b = a /\ JS.le a b = true) \/ JS.Math_min a b = b.
Proof.
  intros Ha Hb. unfold JS.Math_min, JS.le, SFleb.
  destruct (compare_some a b Ha Hb) as [c ->].
  destruct c; auto. destruct a as [[]| | |]; auto.
Qed.

Lemma Math_max_cases (a b : number) :
  JS.is_nan a = false -> JS.is_nan b = false ->
  (JS.Math_max a b = a /\ JS.le b a = true) \/ JS.Math_max a b = b.
Proof.
  intros Ha Hb. unfold JS.Math_max, JS.le, SFleb.
  rewrite (compare_antisym a b).
  destruct (compare_some a b Ha Hb) as [c ->].
  destruct c; auto. destruct a as [[]| | |]; auto.
Qed.

Lemma Math_max_lt (a b : number) : JS.lt a b = true -> JS.Math_max a b = b.
Proof.
  unfold JS.lt, SFltb, JS.Math_max.
  now destruct (SFcompare a b) as [[]|].
Qed.

Lemma Math_max_gt (a b : number) : JS.lt b a = true -> JS.Math_max a b = a.
Proof.
  unfold JS.lt, SFltb, JS.Math_max. rewrite (compare_antisym b a).
  now destruct (SFcompare b a) as [[]|].
Qed.

Lemma Math_min_lt (a b : number) : JS.lt a b = true -> JS.Math_min a b = a.
Proof.
  unfold JS.lt, SFltb, JS.Math_min.
  now destruct (SFcompare a b) as [[]|].
Qed.

Lemma Math_min_gt (a b : number) : JS.lt b a = true -> JS.Math_min a b = b.
Proof.
  unfold JS.lt, SFltb, JS.Math_min. rewrite (compare_antisym b a).
  now destruct (SFcompare b a) as [[]|].
Qed.

(** ** Rounding never yields NaN and keeps the sign *)

Lemma iter_pos_inv {A : Type} (P : A -> Prop) (f : A -> A) :
  (forall x, P x -> P (f x)) -> forall p x, P x -> P (iter_pos f p x).
Proof.
  intros Hf. induction p as [p IH|p IH|]; simpl; intros x Hx; auto.
Qed.

Lemma shr_1_nonneg (r : shr_record) : 0 <= shr_m r -> 0 <= shr_m (shr_1 r).
Proof.
  destruct r as [m r s]. simpl.
  destruct m as [|[p|p|]|p]; simpl; lia.
Qed.

Lemma shr_nonneg (r : shr_record) (e n : Z) :
  0 <= shr_m r -> 0 <= shr_m (fst (shr r e n)).
Proof.
  intros H. destruct n; simpl; auto.
  apply (iter_pos_inv (fun r => 0 <= shr_m r)); auto using shr_1_nonneg.
Qed.

Lemma shr_record_of_loc_m (m : Z) (l : location) :
  shr_m (shr_record_of_loc m l) = m.
Proof. now destruct l as [|[]]. Qed.

Lemma shr_fexp_nonneg (m e : Z) (l : location) :
  0 <= m -> 0 <= shr_m (fst (shr_fexp JS.prec JS.emax m e l)).
Proof.
  intros H. unfold shr_fexp. apply shr_nonneg.
  now rewrite shr_record_of_loc_m.
Qed.

Lemma round_nearest_even_nonneg (m : Z) (l : location) :
  0 <= m -> 0 <= round_nearest_even m l.
Proof.
  intros H. destruct l as [|[]]; simpl; try lia.
  destruct (Z.even m); lia.
Qed.

Lemma binary_round_aux_sign (sx : bool) (mx ex : Z) (lx : location) :
  0 <= mx ->
  has_sign sx (binary_round_aux JS.prec JS.emax sx mx ex lx) = true.
Proof.
  intros H. unfold binary_round_aux.
  pose proof (shr_fexp_nonneg mx ex lx H) as H1.
  destruct (shr_fexp JS.prec JS.emax mx ex lx) as [mrs' e']. simpl in H1.
  pose proof (shr_fexp_nonneg _ e' loc_Exact
                (round_nearest_even_nonneg _ (loc_of_shr_record mrs') H1)) as H2.
  destruct (shr_fexp JS.prec JS.emax _ e' loc_Exact) as [mrs'' e''].
  simpl in H2.
  destruct (shr_m mrs'') as [|m|m]; simpl.
  - apply eqb_reflx.
  - destruct (e'' <=? _); simpl; apply eqb_reflx.
  - lia.
Qed.

Lemma binary_round_sign (sx : bool) (mx : positive) (ex : Z) :
  has_sign sx (binary_round JS.prec JS.emax sx mx ex) = true.
Proof.
  unfold binary_round. destruct (shl_align mx ex _) as [mz ez].
  apply binary_round_aux_sign. lia.
Qed.

Lemma has_sign_not_nan (s : bool) (x : number) :
  has_sign s x = true -> JS.is_nan x = false.
Proof. now destruct x. Qed.

Lemma binary_normalize_not_nan (m e : Z) (sz : bool) :
  JS.is_nan (binary_normalize JS.prec JS.emax m e sz) = false.
Proof.
  destruct m; simpl; [reflexivity| |];
    eapply has_sign_not_nan, binary_round_sign.
Qed.

Lemma of_Z_not_nan (z : Z) : JS.is_nan (JS.of_Z z) = false.
Proof. apply binary_normalize_not_nan. Qed.

Lemma of_Z_nonneg (z : Z) : 0 <= z -> has_sign false (JS.of_Z z) = true.
Proof.
  intros H. unfold JS.of_Z. destruct z; simpl; [reflexivity| |lia].
  apply binary_round_sign.
Qed.

(** Adding, subtracting, multiplying or dividing by a finite non-zero
    number keeps a number that is not NaN away from NaN. *)
Lemma add_finite_not_nan (x : number) s m e :
  JS.is_nan x = false -> JS.is_nan (JS.add x (S754_finite s m e)) = false.
Proof.
  destruct x as [sx|sx| |sx mx ex]; simpl; try discriminate; auto.
  intros _. apply binary_normalize_not_nan.
Qed.

Lemma sub_finite_not_nan (x : number) s m e :
  JS.is_nan x = false -> JS.is_nan (JS.sub x (S754_finite s m e)) = false.
Proof.
  destruct x as [sx|sx| |sx mx ex]; simpl; try discriminate; auto.
  intros _. apply binary_normalize_not_nan.
Qed.

Lemma mul_finite_sign (x : number) sx s m e :
  has_sign sx x = true ->
  has_sign (xorb sx s) (JS.mul x (S754_finite s m e)) = true.
Proof.
  destruct x as [s'|s'| |s' mx ex]; simpl; try discriminate;
    intros H; apply eqb_prop in H; subst s'; try apply eqb_reflx.
  apply binary_round_aux_sign. lia.
Qed.

Lemma mul_finite_not_nan (x : number) s m e :
  JS.is_nan x = false -> JS.is_nan (JS.mul x (S754_finite s m e)) = false.
Proof.
  destruct x as [sx|sx| |sx mx ex]; simpl; try discriminate; auto.
  intros _. eapply has_sign_not_nan, binary_round_aux_sign. lia.
Qed.

Lemma div_core_nonneg (m1 : positive) (e1 : Z) (m2 : positive) (e2 : Z) :
  0 <= fst (fst (SFdiv_core_binary JS.prec JS.emax (Zpos m1) e1 (Zpos m2) e2)).
Proof.
  unfold SFdiv_core_binary.
  set (s := _ - _ - _).
  set (m' := match s with Z0 => _ | Zpos _ => _ | Zneg _ => _ end).
  assert (Hm : 0 <= m').
  { subst m'. destruct s; try lia. apply Z.shiftl_nonneg. lia. }
  pose proof (Z_div_mod m' (Zpos m2) ltac:(lia)) as Hd.
  destruct (Z.div_eucl m' (Zpos m2)) as [q r]. simpl. nia.
Qed.

Lemma div_finite_sign (x : number) sx s m e :
  has_sign sx x = true ->
  has_sign (xorb sx s) (JS.div x (S754_finite s m e)) = true.
Proof.
  destruct x as [s'|s'| |s' mx ex]; simpl; try discriminate;
    intros H; apply eqb_prop in H; subst s'; try apply eqb_reflx.
  pose proof (div_core_nonneg mx ex m e) as Hq.
  destruct (SFdiv_core_binary _ _ _ _ _ _) as [[mz ez] lz]. simpl in Hq.
  now apply binary_round_aux_sign.
Qed.

Lemma div_finite_not_nan (x : number) s m e :
  JS.is_nan x = false -> JS.is_nan (JS.div x (S754_finite s m e)) = false.
Proof.
  intros H.
  assert (Hs : exists sx, has_sign sx x = true).
  { destruct x as [sx|sx| |sx mx ex]; try discriminate;
      exists sx; apply eqb_reflx. }
  destruct Hs as [sx Hs].
  eapply has_sign_not_nan, div_finite_sign, Hs.
Qed.

(** ** The compact-target decoder *)

(** C5: [compactToTarget] throws exactly on the malformed inputs (not an
    integer, not positive, sign bit set, or mantissa zero) and on every
    other input returns the mantissa shifted right by 8 * (3 - exponent)
    bits when the exponent is at most 3, and shifted left by
    8 * (exponent - 3) bits otherwise. *)
Theorem compactToTarget_spec (bits : number) :
  match JS.to_Z bits with
  | None => compactToTarget bits = Throw InvalidBits
  | Some z =>
      if (z <=? 0) || signBit z || (mantissa z =? 0)
      then compactToTarget bits = Throw InvalidBits
      else compactToTarget bits =
           Ok (if exponent z <=? 3
               then Z.shiftr (mantissa z) (8 * (3 - exponent z))
               else Z.shiftl (mantissa z) (8 * (exponent z - 3)))
  end.
Proof.
  rewrite compactToTarget_eq. unfold validCompact, decodedTarget.
  destruct (JS.to_Z bits) as [z|]; [|reflexivity].
  rewrite Z.leb_antisym.
  destruct (0 <? z); simpl; [|reflexivity].
  destruct (signBit z); simpl; [reflexivity|].
  destruct (mantissa z =? 0); reflexivity.
Qed.

Lemma exponent_range (z : Z) : 0 <= exponent z < 256.
Proof. unfold exponent. apply Z.mod_pos_bound. reflexivity. Qed.

Lemma mantissa_range (z : Z) : 0 <= mantissa z < 2 ^ 23.
Proof. unfold mantissa. apply Z.mod_pos_bound. reflexivity. Qed.

Lemma decodedTarget_pos_iff (z : Z) :
  mantissa z <> 0 ->
  0 <= decodedTarget z /\
  (0 < decodedTarget z <->
   3 <= exponent z \/ 2 ^ (8 * (3 - exponent z)) <= mantissa z).
Proof.
  intros Hm. pose proof (exponent_range z) as He.
  pose proof (mantissa_range z) as Hr. unfold decodedTarget.
  destruct (Z.leb_spec (exponent z) 3) as [H3|H3].
  - rewrite Z.shiftr_div_pow2 by lia.
    assert (Hp : 0 < 2 ^ (8 * (3 - exponent z))) by (apply pow2_pos; lia).
    split; [apply Z.div_pos; lia|].
    split.
    + intros Hq. right.
      destruct (Z.le_gt_cases (2 ^ (8 * (3 - exponent z))) (mantissa z))
        as [Hle|Hgt]; [exact Hle|].
      rewrite Z.div_small in Hq by lia. lia.
    + intros H. apply Z.div_str_pos. split; [exact Hp|].
      destruct H as [H|H]; [|exact H].
      replace (exponent z) with 3 by lia. simpl. lia.
  - rewrite Z.shiftl_mul_pow2 by lia.
    assert (Hp : 0 < 2 ^ (8 * (exponent z - 3))) by (apply pow2_pos; lia).
    split; [nia|]. split; [lia|]. intros _. nia.
Qed.

(** C1, as the code has it: a valid compact target decodes to a target
    that is never negative, and that is strictly positive exactly when the
    exponent is at least 3 or the mantissa is at least
    2 ^ (8 * (3 - exponent)); otherwise the right shift leaves 0. *)
Theorem compactToTarget_positive_iff (bits : number) (z : Z) :
  JS.to_Z bits = Some z ->
  validCompact bits = true ->
  exists t, compactToTarget bits = Ok t /\ 0 <= t /\
    (0 < t <-> 3 <= exponent z \/ 2 ^ (8 * (3 - exponent z)) <= mantissa z).
Proof.
  intros Hz Hv. rewrite compactToTarget_eq, Hv, Hz.
  exists (decodedTarget z). split; [reflexivity|].
  apply decodedTarget_pos_iff.
  unfold validCompact in Hv. rewrite Hz in Hv.
  apply andb_prop in Hv as [_ Hm]. apply negb_true_iff, Z.eqb_neq in Hm.
  exact Hm.
Qed.

Lemma compactToTarget_positive_iff_witness :
  JS.to_Z bits_1d00ffff = Some 486604799 /\
  validCompact bits_1d00ffff = true /\
  exists t, compactToTarget bits_1d00ffff = Ok t /\ 0 <= t /\
    (0 < t <-> 3 <= exponent 486604799 \/
               2 ^ (8 * (3 - exponent 486604799)) <= mantissa 486604799).
Proof.
  split; [reflexivity|]. split; [reflexivity|].
  apply (compactToTarget_positive_iff bits_1d00ffff 486604799);
    reflexivity.
Defined.

(** C1 fails as stated: [0x01000001] is a positive integer with the sign
    bit clear and mantissa 1, and it decodes to 0. *)
Lemma compactToTarget_valid_not_positive :
  validCompact bits_01000001 = true /\
  compactToTarget bits_01000001 = Ok 0 /\
  ~ (exists t, compactToTarget bits_01000001 = Ok t /\ 0 < t).
Proof.
  split; [reflexivity|]. split; [reflexivity|].
  intros (t & Ht & Hpos). vm_compute in Ht. injection Ht as <-. lia.
Qed.

(** ** The percentage engine *)

Lemma pctChange_same_bits (bits : number) :
  pctChangeFromBits bits bits =
  match compactToTarget bits with
  | Ok t => if t =? 0 then Throw RangeError else Ok (JS.of_Z 0)
  | Throw e => Throw e
  end.
Proof.
  unfold pctChangeFromBits.
  destruct (compactToTarget bits) as [t|e]; simpl; [|reflexivity].
  unfold bigint_div. destruct (Z.eqb_spec t 0) as [->|Ht]; [reflexivity|].
  simpl. rewrite Z.mul_comm, Z.quot_mul by exact Ht. reflexivity.
Qed.

(** C8, as the code has it: for a valid compact target [b] whose decoded
    target is not 0, the change of [b] against itself is exactly 0. *)
Theorem pctChangeFromBits_self (bits : number) (t : Z) :
  validCompact bits = true ->
  compactToTarget bits = Ok t ->
  t <> 0 ->
  pctChangeFromBits bits bits = Ok (JS.of_Z 0).
Proof.
  intros _ Ht H0. rewrite pctChange_same_bits, Ht.
  apply Z.eqb_neq in H0. now rewrite H0.
Qed.

Lemma pctChangeFromBits_self_witness :
  validCompact bits_1d00ffff = true /\
  compactToTarget bits_1d00ffff = Ok (65535 * 2 ^ 208) /\
  pctChangeFromBits bits_1d00ffff bits_1d00ffff = Ok (JS.of_Z 0).
Proof.
  split; [reflexivity|]. split; [reflexivity|].
  apply (pctChangeFromBits_self bits_1d00ffff (65535 * 2 ^ 208)).
  - reflexivity.
  - reflexivity.
  - apply Z.eqb_neq. vm_compute. reflexivity.
Defined.

(** C8 fails as stated: the valid compact target [0x01000001] decodes to
    0, and the BigInt division by it throws a RangeError. *)
Lemma zero_target_division_throws :
  validCompact bits_01000001 = true /\
  pctChangeFromBits bits_01000001 bits_01000001 = Throw RangeError /\
  pctChangeFromBits bits_01000001 bits_01000001 <> Ok (JS.of_Z 0).
Proof.
  assert (H : pctChangeFromBits bits_01000001 bits_01000001 = Throw RangeError)
    by (vm_compute; reflexivity).
  split; [reflexivity|]. split; [exact H|]. rewrite H. discriminate.
Qed.

(** ** Activation height and era selection *)

Lemma getActivationHeight_cases (network : string) :
  getActivationHeight network = JS.of_Z 115000 \/
  getActivationHeight network = JS.of_Z 0.
Proof.
  unfold getActivationHeight. destruct (_ || _); auto.
Qed.

Lemma le_trans (a b c : number) :
  JS.le a b = true -> JS.le b c = true -> JS.le a c = true.
Proof.
  unfold JS.le, SFleb.
  destruct a as [sa|sa| |sa ma ea], b as [sb|sb| |sb mb eb],
           c as [sc|sc| |sc mc ec]; simpl;
    try discriminate; try reflexivity;
    try (destruct sa; simpl; try discriminate; try reflexivity);
    try (destruct sb; simpl; try discriminate; try reflexivity);
    try (destruct sc; simpl; try discriminate; try reflexivity).
  all: rewrite ?Pos.compare_cont_spec; simpl.
  all: destruct (Z.compare_spec ea eb), (Z.compare_spec eb ec),
         (Z.compare_spec ea ec); try lia; try discriminate;
         try reflexivity; simpl.
  all: destruct (Pos.compare_spec ma mb), (Pos.compare_spec mb mc),
         (Pos.compare_spec ma mc); simpl; try lia; try discriminate;
         try reflexivity.
Qed.

Lemma getActivationHeight_family (network : string) :
  let n := toLowerCase network in
  (n = "mainnet"%string \/ n = "main"%string ->
   getActivationHeight network = JS.of_Z 115000) /\
  (n <> "mainnet"%string -> n <> "main"%string ->
   getActivationHeight network = JS.of_Z 0).
Proof.
  unfold getActivationHeight.
  replace (or_empty network) with network by now destruct network.
  simpl. split.
  - intros [-> | ->]; reflexivity.
  - intros H1 H2.
    apply String.eqb_neq in H1, H2. now rewrite H1, H2.
Qed.

(** What the estimator returns once the height is not below the
    activation height: the per-block object around the clamped change, or
    the exception raised while computing that change. *)
Lemma calcDifficultyAdjustment_per_block
    (blocks : BlocksApi) (DATime : number) (q : option number)
    (nowSeconds blockHeight previousRetarget : number) (network : string)
    (latestBlockTimestamp : number) :
  JS.lt blockHeight (getActivationHeight network) = false ->
  calcDifficultyAdjustment blocks DATime q nowSeconds blockHeight
    previousRetarget network latestBlockTimestamp =
  match Digishield.perBlockChange (blocksCache blocks) with
  | Ok c => Ok (digishieldSnapshot c DATime nowSeconds blockHeight
                  previousRetarget latestBlockTimestamp)
  | Throw e => Throw e
  end.
Proof.
  intros H. unfold calcDifficultyAdjustment. rewrite H.
  now destruct (Digishield.perBlockChange _).
Qed.

Lemma calcDifficultyAdjustment_legacy
    (blocks : BlocksApi) (DATime : number) (q : option number)
    (nowSeconds blockHeight previousRetarget : number) (network : string)
    (latestBlockTimestamp : number) :
  JS.lt blockHeight (getActivationHeight network) = true ->
  calcDifficultyAdjustment blocks DATime q nowSeconds blockHeight
    previousRetarget network latestBlockTimestamp =
  Ok (legacySnapshot DATime q nowSeconds blockHeight previousRetarget
        network latestBlockTimestamp).
Proof. intros H. unfold calcDifficultyAdjustment. now rewrite H. Qed.

(** C9: from the activation height on, and at every greater height, the
    estimator's result is the per-block one (progress 100, one remaining
    block, one expected block, next retarget at the next height), unless
    decoding the cached pair of bits throws; the activation height is
    115000 for "mainnet" and "main" in any case of letters and 0 for every
    other network. *)
Theorem per_block_era_from_activation
    (blocks : BlocksApi) (DATime : number) (q : option number)
    (nowSeconds blockHeight higher previousRetarget : number)
    (network : string) (latestBlockTimestamp : number) :
  ((toLowerCase network = "mainnet"%string \/
    toLowerCase network = "main"%string ->
    getActivationHeight network = JS.of_Z 115000) /\
   (toLowerCase network <> "mainnet"%string ->
    toLowerCase network <> "main"%string ->
    getActivationHeight network = JS.of_Z 0)) /\
  (JS.ge blockHeight (getActivationHeight network) = true ->
   JS.ge higher blockHeight = true ->
   match Digishield.perBlockChange (blocksCache blocks) with
   | Ok c =>
       exists s,
         calcDifficultyAdjustment blocks DATime q nowSeconds higher
           previousRetarget network latestBlockTimestamp = Ok s /\
         progressPercent s = JS.of_Z 100 /\
         remainingBlocks s = JS.of_Z 1 /\
         expectedBlocks s = JS.of_Z 1 /\
         nextRetargetHeight s = JS.add higher (JS.of_Z 1) /\
         difficultyChange s = c
   | Throw e =>
       calcDifficultyAdjustment blocks DATime q nowSeconds higher
         previousRetarget network latestBlockTimestamp = Throw e
   end).
Proof.
  split; [apply getActivationHeight_family|].
  intros Hact Hhigher.
  assert (Hge : JS.ge higher (getActivationHeight network) = true)
    by (unfold JS.ge in *; eapply le_trans; eassumption).
  rewrite calcDifficultyAdjustment_per_block by now apply ge_not_lt.
  destruct (Digishield.perBlockChange _) as [c|e]; [|reflexivity].
  eexists. split; [reflexivity|]. simpl. repeat split.
Qed.

Lemma per_block_era_from_activation_witness :
  JS.ge (JS.of_Z 115000) (getActivationHeight "mainnet") = true /\
  JS.ge (JS.of_Z 200000) (JS.of_Z 115000) = true /\
  exists s,
    calcDifficultyAdjustment easierBlocks (JS.of_Z 1000) None (JS.of_Z 1090)
      (JS.of_Z 200000) (JS.of_Z 5) "mainnet" (JS.of_Z 1060) = Ok s /\
    progressPercent s = JS.of_Z 100 /\
    remainingBlocks s = JS.of_Z 1 /\
    expectedBlocks s = JS.of_Z 1 /\
    nextRetargetHeight s = JS.add (JS.of_Z 200000) (JS.of_Z 1) /\
    difficultyChange s = DIGI_MAX_DOWN.
Proof.
  split; [reflexivity|]. split; [reflexivity|].
  exact (proj2 (per_block_era_from_activation easierBlocks (JS.of_Z 1000)
                  None (JS.of_Z 1090) (JS.of_Z 115000) (JS.of_Z 200000)
                  (JS.of_Z 5) "mainnet" (JS.of_Z 1060))
               eq_refl eq_refl).
Defined.

(** ** Missing blocks and missing baseline *)

(** C7: in the per-block era, when the latest or the block before it is
    not in the cache, the estimator returns a snapshot (it does not throw)
    whose difficulty change is exactly 0. *)
Theorem perBlockChange_zero_without_pair
    (blocks : BlocksApi) (DATime : number) (q : option number)
    (nowSeconds blockHeight previousRetarget : number) (network : string)
    (latestBlockTimestamp : number) :
  JS.lt blockHeight (getActivationHeight network) = false ->
  Digishield.latest (blocksCache blocks) = None \/
  Digishield.prev (blocksCache blocks) = None ->
  exists s,
    calcDifficultyAdjustment blocks DATime q nowSeconds blockHeight
      previousRetarget network latestBlockTimestamp = Ok s /\
    difficultyChange s = JS.of_Z 0.
Proof.
  intros Hera Hmiss.
  rewrite calcDifficultyAdjustment_per_block by exact Hera.
  unfold Digishield.perBlockChange.
  destruct Hmiss as [-> | ->].
  - eexists. split; reflexivity.
  - destruct (Digishield.latest _); eexists; split; reflexivity.
Qed.

Lemma perBlockChange_zero_without_pair_witness :
  JS.lt (JS.of_Z 120000) (getActivationHeight "mainnet") = false /\
  (Digishield.latest (blocksCache emptyBlocks) = None \/
   Digishield.prev (blocksCache emptyBlocks) = None) /\
  exists s,
    calcDifficultyAdjustment emptyBlocks (JS.of_Z 1000) None (JS.of_Z 1090)
      (JS.of_Z 120000) (JS.of_Z 5) "mainnet" (JS.of_Z 1060) = Ok s /\
    difficultyChange s = JS.of_Z 0.
Proof.
  split; [reflexivity|]. split; [left; reflexivity|].
  apply (perBlockChange_zero_without_pair emptyBlocks);
    [reflexivity|left; reflexivity].
Defined.

(** C6: when the last adjustment time or the previous retarget is not a
    number, or the cache has no latest block, the facade returns [null]
    and throws nothing. *)
Theorem getDifficultyAdjustment_unavailable
    (blocks : BlocksApi) (dateNow : number) (network : string) :
  getLastDifficultyAdjustmentTime blocks = None \/
  getPreviousDifficultyRetarget blocks = None \/
  Digishield.latest (blocksCache blocks) = None ->
  getDifficultyAdjustment blocks dateNow network = Ok None.
Proof.
  unfold getDifficultyAdjustment.
  intros [H | [H | H]]; rewrite H.
  - now destruct (Digishield.latest _).
  - now destruct (Digishield.latest _),
                 (getLastDifficultyAdjustmentTime blocks).
  - reflexivity.
Qed.

Lemma getDifficultyAdjustment_unavailable_witness :
  (getLastDifficultyAdjustmentTime emptyBlocks = None \/
   getPreviousDifficultyRetarget emptyBlocks = None \/
   Digishield.latest (blocksCache emptyBlocks) = None) /\
  getDifficultyAdjustment emptyBlocks (JS.of_Z 1090500) "mainnet" = Ok None.
Proof.
  split; [left; reflexivity|].
  apply getDifficultyAdjustment_unavailable. left; reflexivity.
Defined.

(** ** The per-block clamp *)

Lemma below_down_below_up (raw : number) :
  JS.lt raw DIGI_MAX_DOWN = true -> JS.lt raw DIGI_MAX_UP = true.
Proof.
  destruct raw as [[]|[]| |[] m e]; intros H;
    try reflexivity; discriminate H.
Qed.

Lemma clamp_below (raw : number) :
  JS.lt raw DIGI_MAX_DOWN = true -> Digishield.clamp raw = DIGI_MAX_DOWN.
Proof.
  intros H. unfold Digishield.clamp.
  rewrite (Math_min_lt _ _ (below_down_below_up _ H)).
  now apply Math_max_lt.
Qed.

Lemma clamp_above (raw : number) :
  JS.gt raw DIGI_MAX_UP = true -> Digishield.clamp raw = DIGI_MAX_UP.
Proof.
  intros H. unfold Digishield.clamp.
  rewrite (Math_min_gt _ _ H). reflexivity.
Qed.

(** C2, as the code has it: on mainnet at height 115000, when the latest
    bits are easier than the previous ones by more than 33.34% raw (the raw
    change is below -33.34) the per-block change is -33.34, and when they
    are harder by more than 33.34% raw it is 33.34: the clamped value, not
    the raw one. *)
Theorem perBlockChange_clamped_at_activation
    (blocks : BlocksApi) (DATime : number) (q : option number)
    (nowSeconds previousRetarget latestBlockTimestamp : number)
    (l p : Block) (raw : number) :
  Digishield.latest (blocksCache blocks) = Some l ->
  Digishield.prev (blocksCache blocks) = Some p ->
  pctChangeFromBits (bits p) (bits l) = Ok raw ->
  JS.lt raw DIGI_MAX_DOWN = true \/ JS.gt raw DIGI_MAX_UP = true ->
  exists s,
    calcDifficultyAdjustment blocks DATime q nowSeconds (JS.of_Z 115000)
      previousRetarget "mainnet" latestBlockTimestamp = Ok s /\
    difficultyChange s =
      if JS.lt raw DIGI_MAX_DOWN then DIGI_MAX_DOWN else DIGI_MAX_UP.
Proof.
  intros Hl Hp Hraw Hout.
  rewrite calcDifficultyAdjustment_per_block by reflexivity.
  unfold Digishield.perBlockChange. rewrite Hl, Hp, Hraw. simpl.
  eexists. split; [reflexivity|]. simpl.
  destruct (JS.lt raw DIGI_MAX_DOWN) eqn:Hd.
  - now apply clamp_below.
  - destruct Hout as [Hout|Hout]; [discriminate|]. now apply clamp_above.
Qed.

Lemma perBlockChange_clamped_at_activation_witness :
  JS.gt (S754_finite false 7036979970882666 (-46)) DIGI_MAX_UP = true /\
  exists s,
    calcDifficultyAdjustment harderBlocks (JS.of_Z 1000) None (JS.of_Z 1090)
      (JS.of_Z 115000) (JS.of_Z 5) "mainnet" (JS.of_Z 1060) = Ok s /\
    difficultyChange s = DIGI_MAX_UP.
Proof.
  split; [reflexivity|].
  apply (perBlockChange_clamped_at_activation harderBlocks (JS.of_Z 1000)
           None (JS.of_Z 1090) (JS.of_Z 5) (JS.of_Z 1060)
           (block 486604799 1060) (block 486670335 1000)
           (S754_finite false 7036979970882666 (-46)));
    [reflexivity|reflexivity|vm_compute; reflexivity|right; reflexivity].
Defined.

(** C2 fails as stated: at height 115000 on mainnet, with the latest
    target twice the previous one (easier, a raw change near -50), the
    per-block change is -33.34 and not 33.34. *)
Lemma easier_latest_gives_minus_33_34 :
  (exists tp tl raw,
     compactToTarget bits_1d00ffff = Ok tp /\
     compactToTarget bits_1d01ffff = Ok tl /\ tp < tl /\
     pctChangeFromBits bits_1d00ffff bits_1d01ffff = Ok raw /\
     JS.lt raw DIGI_MAX_DOWN = true) /\
  exists s,
    calcDifficultyAdjustment easierBlocks (JS.of_Z 1000) None (JS.of_Z 1090)
      (JS.of_Z 115000) (JS.of_Z 5) "mainnet" (JS.of_Z 1060) = Ok s /\
    difficultyChange s = DIGI_MAX_DOWN /\
    JS.eq (difficultyChange s) DIGI_MAX_UP = false.
Proof.
  split.
  - exists (65535 * 2 ^ 208), (131071 * 2 ^ 208),
      (S754_finite true 7036930712761742 (-47)).
    repeat split; vm_compute; reflexivity.
  - eexists. split; [vm_compute; reflexivity|]. split; reflexivity.
Qed.

(** ** How far rounding can raise the exponent *)

Lemma fexp_eq (x : Z) : fexp JS.prec JS.emax x = Z.max (x - 53) (-1074).
Proof. reflexivity. Qed.

Lemma digits2_pos_bounds (p : positive) :
  2 ^ (Zpos (digits2_pos p) - 1) <= Zpos p < 2 ^ Zpos (digits2_pos p).
Proof.
  induction p as [p IH|p IH|]; simpl digits2_pos;
    rewrite ?Pos2Z.inj_succ, ?Z.pow_succ_r by lia.
  - replace (Z.succ (Zpos (digits2_pos p)) - 1)
      with (Z.succ (Zpos (digits2_pos p) - 1)) by lia.
    rewrite Z.pow_succ_r by lia. lia.
  - replace (Z.succ (Zpos (digits2_pos p)) - 1)
      with (Z.succ (Zpos (digits2_pos p) - 1)) by lia.
    rewrite Z.pow_succ_r by lia. lia.
  - simpl. lia.
Qed.

Lemma Zdigits2_le (m k : Z) : 0 <= k -> 0 <= m < 2 ^ k -> Zdigits2 m <= k.
Proof.
  intros Hk [H0 Hm]. destruct m as [|p|p]; simpl; try lia.
  pose proof (digits2_pos_bounds p) as [Hlo _].
  assert (Hlt : 2 ^ (Zpos (digits2_pos p) - 1) < 2 ^ k) by lia.
  apply Z.pow_lt_mono_r_iff in Hlt; lia.
Qed.

Lemma shr_1_bound (r : shr_record) :
  0 <= shr_m r -> 0 <= shr_m (shr_1 r) /\ shr_m (shr_1 r) * 2 <= shr_m r.
Proof.
  destruct r as [m r s]. simpl.
  destruct m as [|[p|p|]|p]; simpl; lia.
Qed.

Lemma iter_shr_1_bound (p : positive) (r : shr_record) :
  0 <= shr_m r ->
  0 <= shr_m (iter_pos shr_1 p r) /\
  shr_m (iter_pos shr_1 p r) * 2 ^ Zpos p <= shr_m r.
Proof.
  revert r. induction p as [p IH|p IH|]; intros r Hr; simpl iter_pos.
  - destruct (shr_1_bound r Hr) as [H0 H1].
    destruct (IH _ H0) as [H2 H3]. destruct (IH _ H2) as [H4 H5].
    split; [exact H4|].
    replace (Zpos p~1) with (Zpos p + Zpos p + 1) by lia.
    rewrite !Z.pow_add_r by lia. change (2 ^ 1) with 2.
    pose proof (pow2_pos (Zpos p) ltac:(lia)). nia.
  - destruct (IH _ Hr) as [H2 H3]. destruct (IH _ H2) as [H4 H5].
    split; [exact H4|].
    replace (Zpos p~0) with (Zpos p + Zpos p) by lia.
    rewrite Z.pow_add_r by lia.
    pose proof (pow2_pos (Zpos p) ltac:(lia)). nia.
  - destruct (shr_1_bound r Hr) as [H0 H1]. split; [exact H0|].
    change (2 ^ 1) with 2. exact H1.
Qed.

Lemma shr_fexp_spec (m e : Z) (l : location) :
  0 <= m ->
  let re := shr_fexp JS.prec JS.emax m e l in
  snd re = Z.max e (fexp JS.prec JS.emax (Zdigits2 m + e)) /\
  0 <= shr_m (fst re) /\
  shr_m (fst re) * 2 ^ (snd re - e) <= m.
Proof.
  intros Hm. unfold shr_fexp, shr.
  set (n := fexp _ _ _ - e).
  assert (Hr : shr_m (shr_record_of_loc m l) = m) by apply shr_record_of_loc_m.
  destruct n as [|p|p] eqn:Hn; simpl fst; simpl snd.
  - rewrite Hr, Z.sub_diag. simpl. lia.
  - destruct (iter_shr_1_bound p (shr_record_of_loc m l)) as [H0 H1]; [lia|].
    rewrite Hr in H1. replace (e + Zpos p - e) with (Zpos p) by lia. lia.
  - rewrite Hr, Z.sub_diag. simpl. lia.
Qed.

Lemma iter_xO_mul (d m : positive) :
  Zpos (Pos.iter xO m d) = Zpos m * 2 ^ Zpos d.
Proof.
  induction d as [|d IH] using Pos.peano_ind.
  - simpl. lia.
  - rewrite Pos.iter_succ, Pos2Z.inj_xO, IH, Pos2Z.inj_succ,
      Z.pow_succ_r by lia. ring.
Qed.

Lemma shl_align_spec (mx : positive) (ex ex' : Z) :
  snd (shl_align mx ex ex') = Z.min ex ex' /\
  Zpos (fst (shl_align mx ex ex')) =
    Zpos mx * 2 ^ (ex - snd (shl_align mx ex ex')).
Proof.
  unfold shl_align. destruct (ex' - ex) as [|d|d] eqn:Hd;
    simpl fst; simpl snd.
  - rewrite Z.sub_diag, Z.pow_0_r. lia.
  - rewrite Z.sub_diag, Z.pow_0_r. lia.
  - rewrite iter_xO_mul. replace (ex - ex') with (Zpos d) by lia. lia.
Qed.

Lemma fexp_mono (a b : Z) :
  a <= b -> fexp JS.prec JS.emax a <= fexp JS.prec JS.emax b.
Proof. rewrite !fexp_eq. lia. Qed.

Lemma round_nearest_even_bound (m : Z) (l : location) :
  0 <= m -> 0 <= round_nearest_even m l <= m + 1.
Proof.
  intros H. destruct l as [|[]]; simpl; try lia.
  destruct (Z.even m); lia.
Qed.

Lemma binary_round_aux_exp_le (sx : bool) (mx ex : Z) (lx : location) (k B : Z) :
  0 <= mx < 2 ^ (k - ex) -> ex <= B ->
  fexp JS.prec JS.emax (k + 1) <= B ->
  match binary_round_aux JS.prec JS.emax sx mx ex lx with
  | S754_finite _ _ e' => e' <= B
  | S754_infinity _ => JS.emax - JS.prec < B
  | _ => True
  end.
Proof.
  intros [H0 Hlt] HexB HB.
  assert (Hk : 0 <= k - ex).
  { destruct (Z.le_gt_cases 0 (k - ex)) as [H|H]; [exact H|].
    rewrite Z.pow_neg_r in Hlt by lia. lia. }
  unfold binary_round_aux.
  pose proof (shr_fexp_spec mx ex lx H0) as H1. cbv zeta in H1.
  destruct (shr_fexp JS.prec JS.emax mx ex lx) as [r1 e1].
  simpl fst in H1; simpl snd in H1. destruct H1 as (He1 & Hm1 & Hb1).
  pose proof (round_nearest_even_bound _ (loc_of_shr_record r1) Hm1) as Hm2.
  set (m2 := round_nearest_even (shr_m r1) (loc_of_shr_record r1)) in *.
  pose proof (shr_fexp_spec m2 e1 loc_Exact (proj1 Hm2)) as H2.
  cbv zeta in H2.
  destruct (shr_fexp JS.prec JS.emax m2 e1 loc_Exact) as [r2 e2].
  simpl fst in H2; simpl snd in H2. destruct H2 as (He2 & _ & _).
  assert (Hd : Zdigits2 mx <= k - ex) by (apply Zdigits2_le; lia).
  assert (He1B : e1 <= B).
  { pose proof (fexp_mono (Zdigits2 mx + ex) (k + 1) ltac:(lia)). lia. }
  assert (He1ex : ex <= e1) by lia.
  assert (He2B : e2 <= B).
  { assert (fexp JS.prec JS.emax (Zdigits2 m2 + e1) <= B); [|lia].
    destruct (Z.le_gt_cases e1 k) as [Hle|Hgt].
    - assert (Hm1lt : shr_m r1 < 2 ^ (k - e1)).
      { replace (k - ex) with ((k - e1) + (e1 - ex)) in Hlt by lia.
        rewrite Z.pow_add_r in Hlt by lia.
        pose proof (pow2_pos (e1 - ex) ltac:(lia)).
        pose proof (pow2_pos (k - e1) ltac:(lia)). nia. }
      assert (Zdigits2 m2 <= k - e1 + 1).
      { apply Zdigits2_le; [lia|]. rewrite Z.pow_add_r by lia.
        change (2 ^ 1) with 2. pose proof (pow2_pos (k - e1) ltac:(lia)).
        lia. }
      pose proof (fexp_mono (Zdigits2 m2 + e1) (k + 1) ltac:(lia)). lia.
    - assert (Hm10 : shr_m r1 = 0).
      { replace (e1 - ex) with ((k - ex) + (e1 - k)) in Hb1 by lia.
        rewrite Z.pow_add_r in Hb1 by lia.
        pose proof (pow2_pos (e1 - k) ltac:(lia)) as HC.
        pose proof (pow2_pos (k - ex) ltac:(lia)) as HA.
        destruct (Z.eq_dec (shr_m r1) 0) as [Hz|Hnz]; [exact Hz|].
        set (A := 2 ^ (k - ex)) in *. set (C := 2 ^ (e1 - k)) in *.
        assert (A <= A * C) by nia.
        assert (A * C <= shr_m r1 * (A * C)) by nia. lia. }
      assert (Zdigits2 m2 <= 1) by (apply Zdigits2_le; [lia|simpl; lia]).
      pose proof (fexp_mono (Zdigits2 m2 + e1) (e1 + 1) ltac:(lia)) as Hf.
      rewrite !fexp_eq in *. lia. }
  destruct (shr_m r2); auto.
  destruct (Z.leb_spec e2 (JS.emax - JS.prec)); lia.
Qed.

Lemma binary_round_exp_le (sx : bool) (p : positive) (e k B : Z) :
  Zpos p < 2 ^ (k - e) ->
  fexp JS.prec JS.emax (k + 1) <= B ->
  match binary_round JS.prec JS.emax sx p e with
  | S754_finite _ _ e' => e' <= B
  | S754_infinity _ => JS.emax - JS.prec < B
  | _ => True
  end.
Proof.
  intros Hlt HB.
  assert (Hk : 0 <= k - e).
  { destruct (Z.le_gt_cases 0 (k - e)) as [H|H]; [exact H|].
    rewrite Z.pow_neg_r in Hlt by lia. lia. }
  unfold binary_round.
  pose proof (shl_align_spec p e (fexp JS.prec JS.emax (Zpos (digits2_pos p) + e)))
    as [Hez Hmz].
  destruct (shl_align p e _) as [mz ez]. simpl fst in *; simpl snd in *.
  assert (Hd : Zdigits2 (Zpos p) <= k - e) by (apply Zdigits2_le; lia).
  simpl in Hd.
  pose proof (fexp_mono (Zpos (digits2_pos p) + e) (k + 1) ltac:(lia)).
  apply binary_round_aux_exp_le with (k := k); [|lia|exact HB].
  split; [lia|]. rewrite Hmz.
  replace (k - ez) with ((k - e) + (e - ez)) by lia.
  rewrite Z.pow_add_r by lia.
  pose proof (pow2_pos (e - ez) ltac:(lia)). nia.
Qed.

(** The sum of a negative finite number and 60 is not above 1200. *)
Lemma add_negative_60_not_above_1200 (m : positive) (e : Z) :
  JS.lt TESTNET_MAX_BLOCK_SECONDS
        (JS.add (S754_finite true m e) BLOCK_SECONDS_TARGET) = false.
Proof.
  change BLOCK_SECONDS_TARGET with (S754_finite false 8444249301319680 (-47)).
  change TESTNET_MAX_BLOCK_SECONDS
    with (S754_finite false 5277655813324800 (-42)).
  unfold JS.add, SFadd. set (ez := Z.min e (-47)).
  destruct (shl_align_spec m e ez) as [Hea Ha].
  destruct (shl_align_spec 8444249301319680 (-47) ez) as [Heb Hb].
  rewrite Hea in Ha. rewrite Heb in Hb.
  replace (Z.min e ez) with ez in Ha by (subst ez; lia).
  replace (Z.min (-47) ez) with ez in Hb by (subst ez; lia).
  set (a := Zpos (fst (shl_align m e ez))) in *.
  set (b := Zpos (fst (shl_align 8444249301319680 (-47) ez))) in *.
  simpl cond_Zopp.
  assert (Hb6 : b < 2 ^ (6 - ez)).
  { rewrite Hb. replace (6 - ez) with (53 + (-47 - ez)) by lia.
    rewrite Z.pow_add_r by (subst ez; lia).
    pose proof (pow2_pos (-47 - ez) ltac:(subst ez; lia)).
    assert (8444249301319680 < 2 ^ 53) by reflexivity. nia. }
  assert (Ha0 : 0 < a) by (subst a; lia).
  change (Z.neg (fst (shl_align m e ez))) with (- a).
  destruct (- a + b) as [|p|p] eqn:Hsum; unfold binary_normalize.
  - reflexivity.
  - pose proof (binary_round_exp_le false p ez 6 (-46) ltac:(lia)
                  ltac:(rewrite fexp_eq; lia)) as Hexp.
    pose proof (binary_round_sign false p ez) as Hsign.
    destruct (binary_round JS.prec JS.emax false p ez) as [s|s| |s m' e'];
      try reflexivity.
    + unfold JS.emax, JS.prec in Hexp. lia.
    + simpl in Hsign. apply eqb_prop in Hsign. subst s.
      cbv beta iota delta [JS.lt SFltb SFcompare].
      destruct (Z.compare_spec (-42) e'); try lia; reflexivity.
  - pose proof (binary_round_sign true p ez) as Hsign.
    destruct (binary_round JS.prec JS.emax true p ez) as [s|s| |s m' e'];
      try reflexivity; simpl in Hsign; apply eqb_prop in Hsign; subst s;
      reflexivity.
Qed.

Lemma add_60_above_1200_sign (s0 : number) :
  JS.gt (JS.add s0 BLOCK_SECONDS_TARGET) TESTNET_MAX_BLOCK_SECONDS = true ->
  has_sign false s0 = true.
Proof.
  unfold JS.gt. destruct s0 as [s|s| |s m e].
  - intros H. vm_compute in H. discriminate H.
  - destruct s; [|reflexivity]. intros H. vm_compute in H. discriminate H.
  - intros H. vm_compute in H. discriminate H.
  - destruct s; [|reflexivity].
    now rewrite add_negative_60_not_above_1200.
Qed.

Lemma has_sign_true_le_0 (x : number) :
  has_sign true x = true -> JS.le x (JS.of_Z 0) = true.
Proof.
  destruct x as [s|s| |s m e]; simpl; try discriminate;
    intros H; apply eqb_prop in H; subst s; reflexivity.
Qed.

Lemma has_sign_neg (s : bool) (x : number) :
  has_sign s x = true -> has_sign (negb s) (JS.neg x) = true.
Proof.
  destruct x as [s'|s'| |s' m e]; simpl; try discriminate;
    intros H; apply eqb_prop in H; subst s'; apply eqb_reflx.
Qed.

Lemma testnet_offset_le_0 (s0 : number) :
  JS.gt (JS.add s0 BLOCK_SECONDS_TARGET) TESTNET_MAX_BLOCK_SECONDS = true ->
  JS.le (JS.mul (JS.neg (JS.Math_min s0 TESTNET_MAX_BLOCK_SECONDS))
                (JS.of_Z 1000))
        (JS.of_Z 0) = true.
Proof.
  intros H. apply add_60_above_1200_sign in H.
  assert (Hmin : has_sign false (JS.Math_min s0 TESTNET_MAX_BLOCK_SECONDS) = true).
  { destruct (Math_min_cases s0 TESTNET_MAX_BLOCK_SECONDS)
      as [[-> _] | ->]; auto.
    eapply has_sign_not_nan, H. }
  apply has_sign_neg in Hmin.
  apply has_sign_true_le_0.
  change (JS.of_Z 1000) with (S754_finite false 8796093022208000 (-43)).
  apply (mul_finite_sign _ (negb false) false). exact Hmin.
Qed.

(** ** The testnet time offset *)

Lemma or_empty_id (network : string) : or_empty network = network.
Proof. now destruct network. Qed.

Lemma isTestnet_activation (network : string) :
  Legacy.isTestnet network = true -> getActivationHeight network = JS.of_Z 0.
Proof.
  unfold Legacy.isTestnet, getActivationHeight. intros H.
  apply String.eqb_eq in H. now rewrite H.
Qed.

Lemma blocksInEpoch_negative (blockHeight : number) :
  JS.lt blockHeight (JS.of_Z 0) = true ->
  Legacy.blocksInEpoch blockHeight = JS.of_Z 0.
Proof.
  intros H. unfold Legacy.blocksInEpoch. now rewrite (lt_not_ge _ _ H).
Qed.

Lemma legacy_offset_le_0
    (DATime nowSeconds blockHeight : number) (network : string)
    (latestBlockTimestamp : number) :
  JS.lt blockHeight (getActivationHeight network) = true ->
  JS.le (Legacy.timeOffset DATime nowSeconds blockHeight network
           latestBlockTimestamp) (JS.of_Z 0) = true.
Proof.
  intros Hera. unfold Legacy.timeOffset, Legacy.cappedTimeAvgSecs.
  destruct (Legacy.isTestnet network) eqn:Ht; [|reflexivity].
  rewrite (isTestnet_activation _ Ht) in Hera.
  unfold Legacy.timeAvgSecs. rewrite (blocksInEpoch_negative _ Hera).
  change (JS.truthy (JS.of_Z 0)) with false. cbv iota.
  change (JS.gt BLOCK_SECONDS_TARGET TESTNET_MAX_BLOCK_SECONDS) with false.
  cbv iota.
  destruct (JS.gt _ TESTNET_MAX_BLOCK_SECONDS) eqn:Hgt; [|reflexivity].
  now apply testnet_offset_le_0.
Qed.

(** C3: every snapshot the estimator produces has a time offset that is
    at most 0, and exactly 0 when the network, lowered, is not "testnet". *)
Theorem timeOffset_nonpositive
    (blocks : BlocksApi) (DATime : number) (q : option number)
    (nowSeconds blockHeight previousRetarget : number) (network : string)
    (latestBlockTimestamp : number) (s : DifficultyAdjustment) :
  calcDifficultyAdjustment blocks DATime q nowSeconds blockHeight
    previousRetarget network latestBlockTimestamp = Ok s ->
  JS.le (timeOffset s) (JS.of_Z 0) = true /\
  (toLowerCase network <> "testnet"%string -> timeOffset s = JS.of_Z 0).
Proof.
  unfold calcDifficultyAdjustment.
  destruct (JS.lt blockHeight (getActivationHeight network)) eqn:Hera.
  - intros [= <-]. simpl timeOffset. split.
    + now apply legacy_offset_le_0.
    + intros Hn. unfold Legacy.timeOffset, Legacy.isTestnet.
      rewrite or_empty_id. apply String.eqb_neq in Hn. now rewrite Hn.
  - destruct (Digishield.perBlockChange _) as [c|e]; simpl; [|discriminate].
    intros [= <-]. simpl. split; reflexivity.
Qed.

Lemma timeOffset_nonpositive_witness :
  exists s,
    calcDifficultyAdjustment emptyBlocks (JS.of_Z 1000) None (JS.of_Z 3030)
      (JS.of_Z (-1)) (JS.of_Z 5) "TESTnet" (JS.of_Z 1000) = Ok s /\
    timeOffset s = JS.of_Z (-1200000) /\
    JS.le (timeOffset s) (JS.of_Z 0) = true /\
    (toLowerCase "TESTnet" <> "testnet"%string -> timeOffset s = JS.of_Z 0).
Proof.
  eexists. split; [vm_compute; reflexivity|]. split; [vm_compute; reflexivity|].
  apply (timeOffset_nonpositive emptyBlocks (JS.of_Z 1000) None
           (JS.of_Z 3030) (JS.of_Z (-1)) (JS.of_Z 5) "TESTnet" (JS.of_Z 1000)).
  vm_compute. reflexivity.
Defined.

(** ** The clamps *)

Lemma legacy_clamp_range (d : number) :
  JS.is_nan d = false ->
  JS.le (JS.of_Z (-75)) (Legacy.clamp d) = true /\
  JS.le (Legacy.clamp d) (JS.of_Z 300) = true.
Proof.
  intros Hd. unfold Legacy.clamp.
  destruct (JS.gt d (JS.of_Z 300)) eqn:Hhi.
  - split; reflexivity.
  - destruct (JS.lt d (JS.of_Z (-75))) eqn:Hlo.
    + split; reflexivity.
    + split; apply not_lt_le; auto using of_Z_not_nan.
Qed.

Lemma legacy_clamp_nan (d : number) :
  JS.is_nan d = true -> JS.is_nan (Legacy.clamp d) = true.
Proof. destruct d; try discriminate. reflexivity. Qed.

Lemma digishield_clamp_range (raw : number) :
  JS.is_nan raw = false ->
  JS.le DIGI_MAX_DOWN (Digishield.clamp raw) = true /\
  JS.le (Digishield.clamp raw) DIGI_MAX_UP = true.
Proof.
  intros Hr. unfold Digishield.clamp.
  destruct (Math_min_cases raw DIGI_MAX_UP Hr eq_refl) as [[-> Hle] | ->].
  - destruct (Math_max_cases raw DIGI_MAX_DOWN Hr eq_refl) as [[-> Hge] | ->].
    + now split.
    + split; reflexivity.
  - split; reflexivity.
Qed.

Lemma mul_not_nan (x y : number) :
  JS.is_nan x = false -> JS.is_finite y = true -> JS.is_nan (JS.mul x y) = false.
Proof. destruct y; try discriminate. intros H _. now apply mul_finite_not_nan. Qed.

Lemma sub_not_nan (x y : number) :
  JS.is_nan x = false -> JS.is_finite y = true -> JS.is_nan (JS.sub x y) = false.
Proof. destruct y; try discriminate. intros H _. now apply sub_finite_not_nan. Qed.

Lemma div_not_nan (x y : number) :
  JS.is_nan x = false -> JS.is_finite y = true -> JS.is_nan (JS.div x y) = false.
Proof. destruct y; try discriminate. intros H _. now apply div_finite_not_nan. Qed.

(** The raw percentage change is never NaN. *)
Lemma pctChangeFromBits_not_nan (oldBits newBits raw : number) :
  pctChangeFromBits oldBits newBits = Ok raw -> JS.is_nan raw = false.
Proof.
  unfold pctChangeFromBits, bigint_div.
  destruct (compactToTarget oldBits) as [oldT|]; simpl; [|discriminate].
  destruct (compactToTarget newBits) as [newT|]; simpl; [|discriminate].
  destruct (newT =? 0); simpl; [discriminate|]. intros [= <-].
  apply mul_not_nan; [|reflexivity].
  apply sub_not_nan; [|reflexivity].
  apply div_not_nan; [|reflexivity].
  apply of_Z_not_nan.
Qed.

Lemma perBlockChange_range (cache : list Block) (c : number) :
  Digishield.perBlockChange cache = Ok c ->
  JS.le DIGI_MAX_DOWN c = true /\ JS.le c DIGI_MAX_UP = true.
Proof.
  unfold Digishield.perBlockChange.
  destruct (Digishield.latest cache) as [l|];
    [destruct (Digishield.prev cache) as [p|]|].
  - destruct (pctChangeFromBits (bits p) (bits l)) as [raw|] eqn:Hraw;
      simpl; [|discriminate].
    intros [= <-]. apply digishield_clamp_range.
    eapply pctChangeFromBits_not_nan, Hraw.
  - intros [= <-]. split; reflexivity.
  - intros [= <-]. split; reflexivity.
Qed.

(** C4, as the code has it: before activation the estimator always returns
    a snapshot, whose difficulty change lies in [-75, 300] unless the
    change computed before the clamp is NaN, which the two comparisons of
    the clamp let through; from activation on, every snapshot returned has
    a difficulty change in [-33.34, 33.34]. *)
Theorem difficultyChange_within_era_bounds
    (blocks : BlocksApi) (DATime : number) (q : option number)
    (nowSeconds blockHeight previousRetarget : number) (network : string)
    (latestBlockTimestamp : number) :
  if JS.lt blockHeight (getActivationHeight network) then
    exists s,
      calcDifficultyAdjustment blocks DATime q nowSeconds blockHeight
        previousRetarget network latestBlockTimestamp = Ok s /\
      if JS.is_nan (Legacy.rawDifficultyChange DATime q nowSeconds
                      blockHeight previousRetarget latestBlockTimestamp)
      then JS.is_nan (difficultyChange s) = true
      else JS.le (JS.of_Z (-75)) (difficultyChange s) = true /\
           JS.le (difficultyChange s) (JS.of_Z 300) = true
  else
    match Digishield.perBlockChange (blocksCache blocks) with
    | Ok _ =>
        exists s,
          calcDifficultyAdjustment blocks DATime q nowSeconds blockHeight
            previousRetarget network latestBlockTimestamp = Ok s /\
          JS.le DIGI_MAX_DOWN (difficultyChange s) = true /\
          JS.le (difficultyChange s) DIGI_MAX_UP = true
    | Throw e =>
        calcDifficultyAdjustment blocks DATime q nowSeconds blockHeight
          previousRetarget network latestBlockTimestamp = Throw e
    end.
Proof.
  destruct (JS.lt blockHeight (getActivationHeight network)) eqn:Hera.
  - rewrite calcDifficultyAdjustment_legacy by exact Hera.
    eexists. split; [reflexivity|]. simpl difficultyChange.
    destruct (JS.is_nan (Legacy.rawDifficultyChange _ _ _ _ _ _)) eqn:Hn.
    + now apply legacy_clamp_nan.
    + now apply legacy_clamp_range.
  - rewrite calcDifficultyAdjustment_per_block by exact Hera.
    destruct (Digishield.perBlockChange _) as [c|e] eqn:Hc; [|reflexivity].
    eexists. split; [reflexivity|]. simpl difficultyChange.
    eapply perBlockChange_range, Hc.
Qed.

(** C4 fails as stated: before activation on mainnet, with a quarter-epoch
    reference time and a previous retarget that is NaN, the difficulty
    change of the snapshot is NaN, which is neither >= -75 nor <= 300. *)
Lemma legacy_difficultyChange_nan :
  JS.lt (JS.of_Z 114999) (getActivationHeight "mainnet") = true /\
  exists s,
    calcDifficultyAdjustment easierBlocks (JS.of_Z 1000) (Some (JS.of_Z 500))
      (JS.of_Z 1030) (JS.of_Z 114999) JS.NaN "mainnet" (JS.of_Z 1000) = Ok s /\
    difficultyChange s = JS.NaN /\
    JS.le (JS.of_Z (-75)) (difficultyChange s) = false /\
    JS.le (difficultyChange s) (JS.of_Z 300) = false.
Proof.
  split; [reflexivity|]. eexists. split; [vm_compute; reflexivity|].
  repeat split.
Qed.

(** ** The legacy epoch of length 1 *)

Lemma mod_pow2_multiple (q a b : Z) :
  0 <= a -> 0 <= b -> (q * 2 ^ (a + b)) mod 2 ^ b = 0.
Proof.
  intros Ha Hb. rewrite Z.pow_add_r, Z.mul_assoc by lia.
  apply Z.mod_mul. pose proof (pow2_pos b Hb). lia.
Qed.

(** An integer modulo 1 is zero. *)
Lemma rem_integer_1 (x : number) :
  JS.isInteger x = true ->
  JS.is_zero (JS.rem x Legacy.EPOCH_BLOCK_LENGTH) = true.
Proof.
  unfold JS.isInteger.
  change Legacy.EPOCH_BLOCK_LENGTH
    with (S754_finite false 4503599627370496 (-52)).
  destruct x as [s|s| |s m e]; try discriminate; [reflexivity|].
  unfold JS.to_Z, JS.rem.
  set (ez := Z.min e (-52)).
  destruct (Z.leb_spec 0 e) as [He|He].
  - intros _.
    assert (H0 : (Zpos m * 2 ^ (e - ez)) mod
                 (4503599627370496 * 2 ^ (-52 - ez)) = 0).
    { subst ez. rewrite Z.min_r by lia.
      change (-52 - -52) with 0. change (4503599627370496 * 2 ^ 0) with (2 ^ 52).
      replace (e - -52) with (e + 52) by lia.
      apply mod_pow2_multiple; lia. }
    rewrite H0. reflexivity.
  - destruct (Z.eqb_spec (Zpos m mod 2 ^ (- e)) 0) as [Hm|Hm]; [|discriminate].
    intros _.
    assert (Hp : 0 < 2 ^ (- e)) by (apply pow2_pos; lia).
    assert (H0 : (Zpos m * 2 ^ (e - ez)) mod
                 (4503599627370496 * 2 ^ (-52 - ez)) = 0).
    { destruct (Z.le_gt_cases (-52) e) as [Hle|Hgt]; subst ez.
      - rewrite Z.min_r by lia.
        change (-52 - -52) with 0.
        change (4503599627370496 * 2 ^ 0) with (2 ^ 52).
        pose proof (Z.div_mod (Zpos m) (2 ^ (- e)) ltac:(lia)) as Hd.
        rewrite Hm, Z.add_0_r in Hd. rewrite Hd.
        rewrite (Z.mul_comm (2 ^ (- e))), <- Z.mul_assoc,
          <- Z.pow_add_r by lia.
        replace (- e + (e - -52)) with (0 + 52) by lia.
        apply mod_pow2_multiple; lia.
      - rewrite Z.min_l by lia. rewrite Z.sub_diag, Z.mul_1_r.
        change 4503599627370496 with (2 ^ 52).
        rewrite <- Z.pow_add_r by lia.
        replace (52 + (-52 - e)) with (- e) by lia. exact Hm. }
    rewrite H0. reflexivity.
Qed.

Lemma blocksInEpoch_integer (blockHeight : number) :
  JS.isInteger blockHeight = true ->
  JS.is_zero (Legacy.blocksInEpoch blockHeight) = true.
Proof.
  intros H. unfold Legacy.blocksInEpoch.
  destruct (JS.ge blockHeight (JS.of_Z 0)); [|reflexivity].
  now apply rem_integer_1.
Qed.

(** C10: before activation, for every block height that is an integer and
    not negative, [blocksInEpoch] is 0; so the snapshot has progress 0 and
    one remaining block, the average block interval before the testnet cap
    is the 60-second target, [blocksInEpoch] is never 2015 and the actual
    timespan is measured from the current time. *)
Theorem legacy_epoch_of_one_block
    (blocks : BlocksApi) (DATime : number) (q : option number)
    (nowSeconds blockHeight previousRetarget : number) (network : string)
    (latestBlockTimestamp : number) :
  JS.isInteger blockHeight = true ->
  JS.ge blockHeight (JS.of_Z 0) = true ->
  JS.lt blockHeight (getActivationHeight network) = true ->
  JS.eq (Legacy.blocksInEpoch blockHeight) (JS.of_Z 0) = true /\
  (exists s,
     calcDifficultyAdjustment blocks DATime q nowSeconds blockHeight
       previousRetarget network latestBlockTimestamp = Ok s /\
     JS.eq (progressPercent s) (JS.of_Z 0) = true /\
     remainingBlocks s = JS.of_Z 1) /\
  Legacy.timeAvgSecs DATime nowSeconds blockHeight = BLOCK_SECONDS_TARGET /\
  JS.eq (Legacy.blocksInEpoch blockHeight) (JS.of_Z 2015) = false /\
  Legacy.actualTimespan DATime nowSeconds blockHeight latestBlockTimestamp =
    JS.sub nowSeconds DATime.
Proof.
  intros Hint Hge Hera.
  pose proof (blocksInEpoch_integer _ Hint) as Hz.
  rewrite calcDifficultyAdjustment_legacy by exact Hera.
  unfold Legacy.timeAvgSecs, Legacy.actualTimespan.
  split; [|split; [eexists; split; [reflexivity|]|]].
  - destruct (Legacy.blocksInEpoch blockHeight); try discriminate.
    reflexivity.
  - simpl progressPercent; simpl remainingBlocks.
    unfold Legacy.progressPercent, Legacy.remainingBlocks. rewrite Hge.
    destruct (Legacy.blocksInEpoch blockHeight) as [[]| | |];
      try discriminate; split; reflexivity.
  - destruct (Legacy.blocksInEpoch blockHeight) as [[]| | |];
      try discriminate; repeat split.
Qed.

Lemma legacy_epoch_of_one_block_witness :
  JS.isInteger (JS.of_Z 114999) = true /\
  JS.ge (JS.of_Z 114999) (JS.of_Z 0) = true /\
  JS.lt (JS.of_Z 114999) (getActivationHeight "mainnet") = true /\
  JS.eq (Legacy.blocksInEpoch (JS.of_Z 114999)) (JS.of_Z 0) = true /\
  (exists s,
     calcDifficultyAdjustment easierBlocks (JS.of_Z 1000) None (JS.of_Z 1030)
       (JS.of_Z 114999) (JS.of_Z 5) "mainnet" (JS.of_Z 1000) = Ok s /\
     JS.eq (progressPercent s) (JS.of_Z 0) = true /\
     remainingBlocks s = JS.of_Z 1) /\
  Legacy.timeAvgSecs (JS.of_Z 1000) (JS.of_Z 1030) (JS.of_Z 114999) =
    BLOCK_SECONDS_TARGET /\
  JS.eq (Legacy.blocksInEpoch (JS.of_Z 114999)) (JS.of_Z 2015) = false /\
  Legacy.actualTimespan (JS.of_Z 1000) (JS.of_Z 1030) (JS.of_Z 114999)
    (JS.of_Z 1000) = JS.sub (JS.of_Z 1030) (JS.of_Z 1000).
Proof.
  split; [reflexivity|]. split; [reflexivity|]. split; [reflexivity|].
  apply (legacy_epoch_of_one_block easierBlocks (JS.of_Z 1000) None
           (JS.of_Z 1030) (JS.of_Z 114999) (JS.of_Z 5) "mainnet"
           (JS.of_Z 1000)); reflexivity.
Defined.

(** ** When the legacy change is a number *)

Lemma div_finite_by_not_nan s m e (y : number) :
  JS.is_nan y = false -> JS.is_nan (JS.div (S754_finite s m e) y) = false.
Proof.
  destruct y as [sy|sy| |sy my ey]; try discriminate; try reflexivity.
  intros _. now apply div_finite_not_nan.
Qed.

(** Without a usable quarter-epoch time, at an integer height, the change
    before the clamp is NaN only if [nowSeconds - DATime] is. *)
Lemma rawDifficultyChange_not_nan
    (DATime : number) (q : option number)
    (nowSeconds blockHeight previousRetarget latestBlockTimestamp : number) :
  Legacy.smoothing q blockHeight = None ->
  JS.isInteger blockHeight = true ->
  JS.is_nan (JS.sub nowSeconds DATime) = false ->
  JS.is_nan (Legacy.rawDifficultyChange DATime q nowSeconds blockHeight
               previousRetarget latestBlockTimestamp) = false.
Proof.
  intros Hs Hint Hn. unfold Legacy.rawDifficultyChange. rewrite Hs.
  pose proof (blocksInEpoch_integer _ Hint) as Hz.
  unfold Legacy.actualTimespan.
  apply mul_not_nan; [|reflexivity]. apply sub_not_nan; [|reflexivity].
  change BLOCK_SECONDS_TARGET with (S754_finite false 8444249301319680 (-47)).
  apply div_finite_by_not_nan.
  destruct (Legacy.blocksInEpoch blockHeight) as [[]| | |]; try discriminate;
    (apply div_not_nan; [exact Hn|reflexivity]).
Qed.

(** * Further properties of the estimator *)

(** ** Which exception the percentage engine raises *)

Lemma compactToTarget_valid (bits : number) :
  validCompact bits = true ->
  exists z, JS.to_Z bits = Some z /\ compactToTarget bits = Ok (decodedTarget z).
Proof.
  intros Hv. rewrite compactToTarget_eq, Hv.
  unfold validCompact in Hv. destruct (JS.to_Z bits) as [z|]; [|discriminate].
  now exists z.
Qed.

Lemma compactToTarget_invalid (bits : number) :
  validCompact bits = false -> compactToTarget bits = Throw InvalidBits.
Proof. intros Hv. now rewrite compactToTarget_eq, Hv. Qed.

Lemma compactToTarget_ok_valid (bits : number) (t : Z) :
  compactToTarget bits = Ok t -> validCompact bits = true.
Proof.
  rewrite compactToTarget_eq. now destruct (validCompact bits).
Qed.

(** X1: [pctChangeFromBits] throws [Invalid bits] exactly when one of its
    arguments is not a valid compact target, throws a RangeError exactly
    when both are valid and the new one decodes to 0, and in every other
    case returns a number that is not NaN. *)
Theorem pctChangeFromBits_exceptions (oldBits newBits : number) :
  (pctChangeFromBits oldBits newBits = Throw InvalidBits <->
   validCompact oldBits = false \/ validCompact newBits = false) /\
  (pctChangeFromBits oldBits newBits = Throw RangeError <->
   validCompact oldBits = true /\ compactToTarget newBits = Ok 0) /\
  ((exists raw, pctChangeFromBits oldBits newBits = Ok raw /\
                JS.is_nan raw = false) <->
   validCompact oldBits = true /\
   exists t, compactToTarget newBits = Ok t /\ t <> 0).
Proof.
  destruct (validCompact oldBits) eqn:Ho.
  - destruct (compactToTarget_valid _ Ho) as (zo & _ & Hco).
    destruct (validCompact newBits) eqn:Hn.
    + destruct (compactToTarget_valid _ Hn) as (zn & _ & Hcn).
      assert (Hp : pctChangeFromBits oldBits newBits =
                   if decodedTarget zn =? 0 then Throw RangeError
                   else Ok (JS.mul (JS.sub (JS.div
                          (JS.of_Z (Z.quot (decodedTarget zo * SCALE)
                                           (decodedTarget zn)))
                          (JS.of_Z SCALE)) (JS.of_Z 1)) (JS.of_Z 100))).
      { unfold pctChangeFromBits, bigint_div. rewrite Hco, Hcn. simpl.
        now destruct (decodedTarget zn =? 0). }
      rewrite Hcn.
      destruct (Z.eqb_spec (decodedTarget zn) 0) as [H0|H0].
      * rewrite Hp, H0. split; [|split]; split.
        -- discriminate.
        -- intros [H|H]; discriminate H.
        -- auto.
        -- auto.
        -- intros (raw & H & _). discriminate H.
        -- intros (_ & t & [= <-] & Ht). now elim Ht.
      * assert (Hnan : JS.is_nan (JS.mul (JS.sub (JS.div
                          (JS.of_Z (Z.quot (decodedTarget zo * SCALE)
                                           (decodedTarget zn)))
                          (JS.of_Z SCALE)) (JS.of_Z 1)) (JS.of_Z 100)) = false).
        { apply (pctChangeFromBits_not_nan oldBits newBits). exact Hp. }
        rewrite Hp. split; [|split]; split.
        -- discriminate.
        -- intros [H|H]; discriminate H.
        -- discriminate.
        -- intros (_ & [= H]). now elim H0.
        -- intros _. split; [reflexivity|]. exists (decodedTarget zn). now split.
        -- intros _. eexists. split; [reflexivity|exact Hnan].
    + assert (Hp : pctChangeFromBits oldBits newBits = Throw InvalidBits).
      { unfold pctChangeFromBits. rewrite Hco, (compactToTarget_invalid _ Hn).
        reflexivity. }
      rewrite Hp, (compactToTarget_invalid _ Hn). split; [|split]; split.
      * auto.
      * auto.
      * discriminate.
      * intros (_ & H). discriminate H.
      * intros (raw & H & _). discriminate H.
      * intros (_ & t & H & _). discriminate H.
  - assert (Hp : pctChangeFromBits oldBits newBits = Throw InvalidBits).
    { unfold pctChangeFromBits. now rewrite (compactToTarget_invalid _ Ho). }
    rewrite Hp. split; [|split]; split.
    + auto.
    + auto.
    + discriminate.
    + intros (H & _). discriminate H.
    + intros (raw & H & _). discriminate H.
    + intros (H & _). discriminate H.
Qed.

(** ** When the estimator and its facade throw or return nothing *)

(** X2: [calcDifficultyAdjustment] throws exactly when the height is not
    below the activation height, the cache holds both the latest block and
    the one before it, and the percentage change between their bits
    throws; the exception is that one.  Before activation it never
    throws. *)
Theorem calcDifficultyAdjustment_throws_iff
    (blocks : BlocksApi) (DATime : number) (q : option number)
    (nowSeconds blockHeight previousRetarget : number) (network : string)
    (latestBlockTimestamp : number) (e : exn) :
  calcDifficultyAdjustment blocks DATime q nowSeconds blockHeight
    previousRetarget network latestBlockTimestamp = Throw e <->
  JS.lt blockHeight (getActivationHeight network) = false /\
  exists l p,
    Digishield.latest (blocksCache blocks) = Some l /\
    Digishield.prev (blocksCache blocks) = Some p /\
    pctChangeFromBits (bits p) (bits l) = Throw e.
Proof.
  unfold calcDifficultyAdjustment, Digishield.perBlockChange.
  destruct (JS.lt blockHeight (getActivationHeight network)).
  - split; [discriminate|]. intros [H _]. discriminate H.
  - destruct (Digishield.latest _) as [l|];
      [destruct (Digishield.prev _) as [p|]|]; simpl.
    + destruct (pctChangeFromBits (bits p) (bits l)) as [raw|e'] eqn:Hp; simpl.
      * split; [discriminate|].
        intros (_ & l' & p' & [= <-] & [= <-] & H). congruence.
      * split.
        -- intros [= <-]. split; [reflexivity|]. now exists l, p.
        -- intros (_ & l' & p' & [= <-] & [= <-] & H). congruence.
    + split; [discriminate|]. intros (_ & l' & p' & _ & H & _). discriminate H.
    + split; [discriminate|]. intros (_ & l' & p' & H & _). discriminate H.
Qed.

(** X3: the facade returns [null] exactly when the last adjustment time or
    the previous retarget is not a number or the cache has no latest block;
    with all three it returns a snapshot or the estimator's exception. *)
Theorem getDifficultyAdjustment_null_iff
    (blocks : BlocksApi) (dateNow : number) (network : string) :
  getDifficultyAdjustment blocks dateNow network = Ok None <->
  getLastDifficultyAdjustmentTime blocks = None \/
  getPreviousDifficultyRetarget blocks = None \/
  Digishield.latest (blocksCache blocks) = None.
Proof.
  unfold getDifficultyAdjustment.
  destruct (Digishield.latest _) as [l|]; [|intuition].
  destruct (getLastDifficultyAdjustmentTime blocks) as [t|]; [|intuition].
  destruct (getPreviousDifficultyRetarget blocks) as [r|]; [|intuition].
  destruct (calcDifficultyAdjustment _ _ _ _ _ _ _ _); simpl;
    split; try discriminate; intros [H|[H|H]]; discriminate H.
Qed.

(** X4: a snapshot returned by the facade carries the provider's last
    adjustment time and previous retarget unchanged, whichever era was
    chosen. *)
Theorem getDifficultyAdjustment_carries_baseline
    (blocks : BlocksApi) (dateNow : number) (network : string)
    (s : DifficultyAdjustment) :
  getDifficultyAdjustment blocks dateNow network = Ok (Some s) ->
  getLastDifficultyAdjustmentTime blocks = Some (previousTime s) /\
  getPreviousDifficultyRetarget blocks = Some (previousRetarget s).
Proof.
  unfold getDifficultyAdjustment.
  destruct (Digishield.latest _) as [l|]; [|discriminate].
  destruct (getLastDifficultyAdjustmentTime blocks) as [t|]; [|discriminate].
  destruct (getPreviousDifficultyRetarget blocks) as [r|]; [|discriminate].
  unfold calcDifficultyAdjustment.
  destruct (JS.lt _ _); simpl.
  - intros [= <-]. now split.
  - destruct (Digishield.perBlockChange _); simpl; [|discriminate].
    intros [= <-]. now split.
Qed.

Lemma getDifficultyAdjustment_carries_baseline_witness :
  exists s,
    getDifficultyAdjustment easierBlocks (JS.of_Z 1090500) "mainnet" =
      Ok (Some s) /\
    getLastDifficultyAdjustmentTime easierBlocks = Some (previousTime s) /\
    getPreviousDifficultyRetarget easierBlocks = Some (previousRetarget s).
Proof.
  eexists. split; [vm_compute; reflexivity|].
  apply (getDifficultyAdjustment_carries_baseline easierBlocks
           (JS.of_Z 1090500) "mainnet").
  vm_compute. reflexivity.
Defined.

(** ** The testnet tweak and real heights *)

(** X5: at every block height that is not negative the time offset of the
    snapshot is 0, on every network: "testnet" activates at height 0, so
    the testnet branch of the legacy view is only reached below 0. *)
Theorem timeOffset_zero_from_genesis
    (blocks : BlocksApi) (DATime : number) (q : option number)
    (nowSeconds blockHeight previousRetarget : number) (network : string)
    (latestBlockTimestamp : number) (s : DifficultyAdjustment) :
  calcDifficultyAdjustment blocks DATime q nowSeconds blockHeight
    previousRetarget network latestBlockTimestamp = Ok s ->
  JS.ge blockHeight (JS.of_Z 0) = true ->
  timeOffset s = JS.of_Z 0.
Proof.
  unfold calcDifficultyAdjustment.
  destruct (JS.lt blockHeight (getActivationHeight network)) eqn:Hera.
  - intros [= <-] Hge. simpl. unfold Legacy.timeOffset.
    destruct (Legacy.isTestnet network) eqn:Ht; [|reflexivity].
    rewrite (isTestnet_activation _ Ht) in Hera.
    apply lt_not_ge in Hera. congruence.
  - destruct (Digishield.perBlockChange _); simpl; [|discriminate].
    now intros [= <-].
Qed.

Lemma timeOffset_zero_from_genesis_witness :
  exists s,
    calcDifficultyAdjustment emptyBlocks (JS.of_Z 1000) None (JS.of_Z 9000)
      (JS.of_Z 7) (JS.of_Z 5) "testnet" (JS.of_Z 1000) = Ok s /\
    JS.ge (JS.of_Z 7) (JS.of_Z 0) = true /\
    timeOffset s = JS.of_Z 0.
Proof.
  eexists. split; [vm_compute; reflexivity|]. split; [reflexivity|].
  apply (timeOffset_zero_from_genesis emptyBlocks (JS.of_Z 1000) None
           (JS.of_Z 9000) (JS.of_Z 7) (JS.of_Z 5) "testnet" (JS.of_Z 1000));
    vm_compute; reflexivity.
Defined.

(** ** The decoder reads 32 bits *)

Lemma exponent_mod32 (z : Z) : exponent z = (z mod 2 ^ 32) / 2 ^ 24.
Proof.
  unfold exponent.
  pose proof (Z.rem_mul_r z (2 ^ 24) (2 ^ 8) ltac:(discriminate) ltac:(lia)) as Hr.
  change (2 ^ 24 * 2 ^ 8) with (2 ^ 32) in Hr. rewrite Hr.
  rewrite (Z.mul_comm (2 ^ 24)), Z.div_add by discriminate.
  rewrite (Z.div_small (z mod 2 ^ 24)) by (apply Z.mod_pos_bound; reflexivity).
  reflexivity.
Qed.

Lemma fields_mod32 (a b : Z) :
  a mod 2 ^ 32 = b mod 2 ^ 32 ->
  exponent a = exponent b /\ mantissa a = mantissa b /\ signBit a = signBit b.
Proof.
  intros H. split; [|split].
  - now rewrite !exponent_mod32, H.
  - unfold mantissa. apply (mod_low _ _ 23 32); [lia|exact H].
  - unfold signBit. apply (testbit_low _ _ 23 32); [lia|exact H].
Qed.

(** X6: [compactToTarget] looks at the low 32 bits only: two positive
    integers that agree modulo 2^32 give the same result, so a value above
    the 32-bit range is decoded (or rejected) as its low word rather than
    rejected for its size. *)
Theorem compactToTarget_low_word (a b : number) (za zb : Z) :
  JS.to_Z a = Some za -> JS.to_Z b = Some zb ->
  0 < za -> 0 < zb ->
  za mod 2 ^ 32 = zb mod 2 ^ 32 ->
  compactToTarget a = compactToTarget b.
Proof.
  intros Ha Hb Hpa Hpb Hmod.
  rewrite !compactToTarget_eq. unfold validCompact, decodedTarget.
  rewrite Ha, Hb.
  destruct (fields_mod32 _ _ Hmod) as (-> & -> & ->).
  apply Z.ltb_lt in Hpa, Hpb. now rewrite Hpa, Hpb.
Qed.

Lemma compactToTarget_low_word_witness :
  JS.to_Z (JS.of_Z (2 ^ 32 + 486604799)) = Some (2 ^ 32 + 486604799) /\
  JS.to_Z bits_1d00ffff = Some 486604799 /\
  compactToTarget (JS.of_Z (2 ^ 32 + 486604799)) =
  compactToTarget bits_1d00ffff.
Proof.
  split; [reflexivity|]. split; [reflexivity|].
  apply (compactToTarget_low_word _ _ (2 ^ 32 + 486604799) 486604799);
    reflexivity.
Defined.

(** X7: for a valid compact target with exponent from 3 to 254, raising
    the exponent byte by one (adding 2^24 to the bits) multiplies the
    decoded target by 256. *)
Theorem compactToTarget_next_exponent (a b : number) (z : Z) :
  JS.to_Z a = Some z -> JS.to_Z b = Some (z + 2 ^ 24) ->
  validCompact a = true ->
  3 <= exponent z < 255 ->
  exists t, compactToTarget a = Ok t /\ compactToTarget b = Ok (256 * t).
Proof.
  intros Ha Hb Hv He.
  assert (Hm : mantissa (z + 2 ^ 24) = mantissa z).
  { unfold mantissa. replace (z + 2 ^ 24) with (z + 2 * 2 ^ 23) by reflexivity.
    apply Z.mod_add. discriminate. }
  assert (Hs : signBit (z + 2 ^ 24) = signBit z).
  { unfold signBit. apply (testbit_low _ _ 23 24); [lia|].
    replace (z + 2 ^ 24) with (z + 1 * 2 ^ 24) by ring.
    apply Z.mod_add. discriminate. }
  assert (Hx : exponent (z + 2 ^ 24) = exponent z + 1).
  { unfold exponent in *.
    replace (z + 2 ^ 24) with (z + 1 * 2 ^ 24) by ring.
    rewrite Z.div_add by discriminate.
    pose proof (Z.mod_pos_bound (z / 2 ^ 24) (2 ^ 8) ltac:(reflexivity)) as Hb8.
    rewrite <- (Z.mod_small (z / 2 ^ 24 mod 2 ^ 8 + 1) (2 ^ 8))
      by (change (2 ^ 8) with 256 in *; lia).
    rewrite <- Zplus_mod_idemp_l. reflexivity. }
  rewrite !compactToTarget_eq, Hv.
  unfold validCompact in *. rewrite Ha in *. rewrite Hb, Hm, Hs.
  apply andb_prop in Hv as [Hv Hmz]. apply andb_prop in Hv as [Hpos Hsb].
  apply Z.ltb_lt in Hpos.
  replace (0 <? z + 2 ^ 24) with true
    by (symmetry; apply Z.ltb_lt; change (2 ^ 24) with 16777216; lia).
  rewrite Hsb, Hmz. cbn [andb].
  exists (decodedTarget z). split; [reflexivity|]. f_equal.
  unfold decodedTarget. rewrite Hx, Hm.
  destruct (Z.leb_spec (exponent z + 1) 3) as [H3|H3]; [lia|].
  pose proof (mantissa_range z) as Hr.
  destruct (Z.leb_spec (exponent z) 3) as [H3'|H3'].
  - replace (exponent z) with 3 by lia. simpl (8 * (3 - 3)).
    rewrite Z.shiftr_0_r. simpl (8 * (3 + 1 - 3)).
    rewrite Z.shiftl_mul_pow2 by lia. change (2 ^ 8) with 256. ring.
  - rewrite !Z.shiftl_mul_pow2 by lia.
    replace (8 * (exponent z + 1 - 3)) with (8 * (exponent z - 3) + 8) by ring.
    rewrite Z.pow_add_r by lia. change (2 ^ 8) with 256. ring.
Qed.

Lemma compactToTarget_next_exponent_witness :
  JS.to_Z bits_1d00ffff = Some 486604799 /\
  JS.to_Z (JS.of_Z (486604799 + 2 ^ 24)) = Some (486604799 + 2 ^ 24) /\
  validCompact bits_1d00ffff = true /\
  3 <= exponent 486604799 < 255 /\
  exists t, compactToTarget bits_1d00ffff = Ok t /\
            compactToTarget (JS.of_Z (486604799 + 2 ^ 24)) = Ok (256 * t).
Proof.
  split; [reflexivity|]. split; [reflexivity|]. split; [reflexivity|].
  split; [vm_compute; split; [discriminate|reflexivity]|].
  apply (compactToTarget_next_exponent _ _ 486604799);
    try reflexivity. vm_compute; split; [discriminate|reflexivity].
Defined.

(** ** Averages and counts that cannot go below their floor *)

Lemma Math_max_either (a b : number) :
  JS.is_nan a = false -> JS.is_nan b = false ->
  (JS.Math_max a b = a /\ JS.le b a = true) \/
  (JS.Math_max a b = b /\ JS.le a b = true).
Proof.
  intros Ha Hb. unfold JS.Math_max, JS.le, SFleb.
  rewrite (compare_antisym a b).
  destruct (compare_some a b Ha Hb) as [c ->].
  destruct c; simpl; auto. destruct a as [[]| | |]; auto.
Qed.

Lemma le_1_truthy (x : number) :
  JS.le (JS.of_Z 1) x = true -> JS.truthy x = true.
Proof. destruct x as [s|s| |s m e]; try reflexivity; discriminate. Qed.

(** X8: in the per-block view the average block interval in seconds is
    never below 1 and never NaN: it is [Math.max(1, now - latest)], and the
    60-second fallback replaces it exactly when [now - latest] is NaN. *)
Theorem per_block_timeAvgSecs_floor (nowSeconds latestBlockTimestamp : number) :
  Digishield.timeAvgSecs nowSeconds latestBlockTimestamp =
    (if JS.is_nan (JS.sub nowSeconds latestBlockTimestamp)
     then BLOCK_SECONDS_TARGET
     else JS.Math_max (JS.of_Z 1) (JS.sub nowSeconds latestBlockTimestamp)) /\
  JS.le (JS.of_Z 1) (Digishield.timeAvgSecs nowSeconds latestBlockTimestamp)
    = true.
Proof.
  unfold Digishield.timeAvgSecs.
  destruct (JS.is_nan (JS.sub nowSeconds latestBlockTimestamp)) eqn:Hn.
  - destruct (JS.sub nowSeconds latestBlockTimestamp); try discriminate.
    split; reflexivity.
  - destruct (Math_max_either (JS.of_Z 1) _ eq_refl Hn) as [[-> _]|[-> Hle]].
    + split; reflexivity.
    + rewrite (le_1_truthy _ Hle). now split.
Qed.

Lemma has_sign_false_ge_0 (x : number) :
  has_sign false x = true -> JS.le (JS.of_Z 0) x = true.
Proof.
  destruct x as [s|s| |s m e]; simpl; try discriminate;
    intros H; apply eqb_prop in H; subst s; reflexivity.
Qed.

Lemma ge_0_sign (x : number) :
  JS.le (JS.of_Z 0) x = true -> JS.is_zero x = true \/ has_sign false x = true.
Proof.
  destruct x as [s|s| |s m e]; try discriminate; auto;
    destruct s; try discriminate; auto.
Qed.

Lemma diffSeconds_nonnegative (nowSeconds DATime : number) :
  JS.is_nan (JS.sub nowSeconds DATime) = false ->
  has_sign false (Legacy.diffSeconds nowSeconds DATime) = true.
Proof.
  intros Hn. unfold Legacy.diffSeconds.
  destruct (Math_max_either (JS.of_Z 0) _ eq_refl Hn) as [[-> _]|[Hm Hle]].
  - reflexivity.
  - destruct (ge_0_sign _ Hle) as [Hz|Hs]; [|now rewrite Hm].
    destruct (JS.sub nowSeconds DATime) as [[]| | |]; try discriminate;
      reflexivity.
Qed.

(** X9: whenever [nowSeconds - DATime] is a number, the expected block
    count of a returned snapshot is at least 0 in both eras: the elapsed
    seconds are cut at 0 before the division. *)
Theorem expectedBlocks_nonnegative
    (blocks : BlocksApi) (DATime : number) (q : option number)
    (nowSeconds blockHeight previousRetarget : number) (network : string)
    (latestBlockTimestamp : number) (s : DifficultyAdjustment) :
  calcDifficultyAdjustment blocks DATime q nowSeconds blockHeight
    previousRetarget network latestBlockTimestamp = Ok s ->
  JS.is_nan (JS.sub nowSeconds DATime) = false ->
  JS.le (JS.of_Z 0) (expectedBlocks s) = true.
Proof.
  unfold calcDifficultyAdjustment.
  destruct (JS.lt blockHeight (getActivationHeight network)).
  - intros [= <-] Hn. simpl. unfold Legacy.expectedBlocks.
    apply has_sign_false_ge_0.
    change BLOCK_SECONDS_TARGET with (S754_finite false 8444249301319680 (-47)).
    apply (div_finite_sign _ false false).
    now apply diffSeconds_nonnegative.
  - destruct (Digishield.perBlockChange _); simpl; [|discriminate].
    now intros [= <-].
Qed.

Lemma expectedBlocks_nonnegative_witness :
  exists s,
    calcDifficultyAdjustment easierBlocks (JS.of_Z 2000) None (JS.of_Z 1030)
      (JS.of_Z 114999) (JS.of_Z 5) "mainnet" (JS.of_Z 1000) = Ok s /\
    JS.is_nan (JS.sub (JS.of_Z 1030) (JS.of_Z 2000)) = false /\
    expectedBlocks s = JS.of_Z 0 /\
    JS.le (JS.of_Z 0) (expectedBlocks s) = true.
Proof.
  eexists. split; [vm_compute; reflexivity|]. split; [reflexivity|].
  split; [reflexivity|].
  apply (expectedBlocks_nonnegative easierBlocks (JS.of_Z 2000) None
           (JS.of_Z 1030) (JS.of_Z 114999) (JS.of_Z 5) "mainnet"
           (JS.of_Z 1000)); vm_compute; reflexivity.
Defined.

(** ** Both eras at an integer height *)

(** X10: at every integer block height that is not negative, a returned
    snapshot has [nextRetargetHeight = blockHeight + 1] and one remaining
    block, before activation as well as after. *)
Theorem next_retarget_is_next_block
    (blocks : BlocksApi) (DATime : number) (q : option number)
    (nowSeconds blockHeight previousRetarget : number) (network : string)
    (latestBlockTimestamp : number) (s : DifficultyAdjustment) :
  calcDifficultyAdjustment blocks DATime q nowSeconds blockHeight
    previousRetarget network latestBlockTimestamp = Ok s ->
  JS.isInteger blockHeight = true ->
  JS.ge blockHeight (JS.of_Z 0) = true ->
  nextRetargetHeight s = JS.add blockHeight (JS.of_Z 1) /\
  remainingBlocks s = JS.of_Z 1.
Proof.
  unfold calcDifficultyAdjustment.
  destruct (JS.lt blockHeight (getActivationHeight network)).
  - intros [= <-] Hint Hge. simpl.
    unfold Legacy.nextRetargetHeight, Legacy.remainingBlocks. rewrite Hge.
    pose proof (blocksInEpoch_integer _ Hint) as Hz.
    destruct (Legacy.blocksInEpoch blockHeight) as [[]| | |];
      try discriminate; split; reflexivity.
  - destruct (Digishield.perBlockChange _); simpl; [|discriminate].
    intros [= <-] _ _. split; reflexivity.
Qed.

Lemma next_retarget_is_next_block_witness :
  exists s,
    calcDifficultyAdjustment easierBlocks (JS.of_Z 1000) None (JS.of_Z 1030)
      (JS.of_Z 114999) (JS.of_Z 5) "mainnet" (JS.of_Z 1000) = Ok s /\
    JS.isInteger (JS.of_Z 114999) = true /\
    JS.ge (JS.of_Z 114999) (JS.of_Z 0) = true /\
    nextRetargetHeight s = JS.of_Z 115000 /\
    nextRetargetHeight s = JS.add (JS.of_Z 114999) (JS.of_Z 1) /\
    remainingBlocks s = JS.of_Z 1.
Proof.
  eexists. split; [vm_compute; reflexivity|]. split; [reflexivity|].
  split; [reflexivity|]. split; [reflexivity|].
  apply (next_retarget_is_next_block easierBlocks (JS.of_Z 1000) None
           (JS.of_Z 1030) (JS.of_Z 114999) (JS.of_Z 5) "mainnet"
           (JS.of_Z 1000)); vm_compute; reflexivity.
Defined.

Lemma sub_self (t : number) :
  JS.is_finite t = true \/ JS.is_zero t = true ->
  JS.sub t t = S754_zero false.
Proof.
  destruct t as [[]|s| |s m e]; simpl; intros [H|H]; try discriminate;
    try reflexivity.
  unfold JS.sub, SFsub. now rewrite Z.sub_diag.
Qed.

Lemma actualTimespan_integer
    (DATime nowSeconds blockHeight latestBlockTimestamp : number) :
  JS.isInteger blockHeight = true ->
  Legacy.actualTimespan DATime nowSeconds blockHeight latestBlockTimestamp =
  JS.sub nowSeconds DATime.
Proof.
  intros Hint. unfold Legacy.actualTimespan.
  pose proof (blocksInEpoch_integer _ Hint) as Hz.
  destruct (Legacy.blocksInEpoch blockHeight) as [[]| | |];
    try discriminate; reflexivity.
Qed.

(** X11: before activation, at an integer height and without a
    quarter-epoch time, a snapshot taken at the very second of the last
    adjustment ([nowSeconds = DATime], a finite number) has a difficulty
    change of exactly 300: the division by a zero timespan gives Infinity,
    which the clamp cuts to its upper bound. *)
Theorem legacy_zero_timespan_gives_300
    (blocks : BlocksApi) (t blockHeight previousRetarget : number)
    (network : string) (latestBlockTimestamp : number) :
  JS.lt blockHeight (getActivationHeight network) = true ->
  JS.isInteger blockHeight = true ->
  JS.is_finite t = true \/ JS.is_zero t = true ->
  exists s,
    calcDifficultyAdjustment blocks t None t blockHeight
      previousRetarget network latestBlockTimestamp = Ok s /\
    difficultyChange s = JS.of_Z 300.
Proof.
  intros Hera Hint Ht.
  rewrite calcDifficultyAdjustment_legacy by exact Hera.
  eexists. split; [reflexivity|]. simpl difficultyChange.
  unfold Legacy.rawDifficultyChange, Legacy.smoothing.
  rewrite (actualTimespan_integer _ _ _ _ Hint), (sub_self _ Ht).
  pose proof (blocksInEpoch_integer _ Hint) as Hz.
  destruct (Legacy.blocksInEpoch blockHeight) as [[]| | |];
    try discriminate; reflexivity.
Qed.

Lemma legacy_zero_timespan_gives_300_witness :
  JS.lt (JS.of_Z 114999) (getActivationHeight "mainnet") = true /\
  JS.isInteger (JS.of_Z 114999) = true /\
  exists s,
    calcDifficultyAdjustment easierBlocks (JS.of_Z 1000) None (JS.of_Z 1000)
      (JS.of_Z 114999) (JS.of_Z 5) "mainnet" (JS.of_Z 1000) = Ok s /\
    difficultyChange s = JS.of_Z 300.
Proof.
  split; [reflexivity|]. split; [reflexivity|].
  apply (legacy_zero_timespan_gives_300 easierBlocks (JS.of_Z 1000)
           (JS.of_Z 114999) (JS.of_Z 5) "mainnet" (JS.of_Z 1000));
    [reflexivity|reflexivity|left; reflexivity].
Defined.

(** X12: at an integer block height the test [blocksInEpoch < 503] never
    fails, so the smoothing branch of the legacy view is taken exactly
    when the quarter-epoch time is a number other than 0 and NaN. *)
Theorem legacy_smoothing_iff_truthy
    (quarterEpochTime : option number) (blockHeight : number) :
  JS.isInteger blockHeight = true ->
  Legacy.smoothing quarterEpochTime blockHeight =
  match quarterEpochTime with
  | Some q => if JS.truthy q then Some q else None
  | None => None
  end.
Proof.
  intros Hint. unfold Legacy.smoothing.
  destruct quarterEpochTime as [q|]; [|reflexivity].
  pose proof (blocksInEpoch_integer _ Hint) as Hz.
  destruct (Legacy.blocksInEpoch blockHeight) as [[]| | |]; try discriminate;
    now rewrite andb_true_r.
Qed.

Lemma legacy_smoothing_iff_truthy_witness :
  JS.isInteger (JS.of_Z 114999) = true /\
  Legacy.smoothing (Some (JS.of_Z 500)) (JS.of_Z 114999) = Some (JS.of_Z 500) /\
  Legacy.smoothing (Some (JS.of_Z 0)) (JS.of_Z 114999) = None.
Proof.
  split; [reflexivity|]. split.
  - apply (legacy_smoothing_iff_truthy (Some (JS.of_Z 500)) (JS.of_Z 114999)).
    reflexivity.
  - reflexivity.
Defined.

(** ** The clamp of two bounds *)

Lemma min_max_range (raw lo hi : number) :
  JS.is_nan raw = false -> JS.is_nan lo = false -> JS.is_nan hi = false ->
  JS.le lo hi = true ->
  JS.le lo (JS.Math_max (JS.Math_min raw hi) lo) = true /\
  JS.le (JS.Math_max (JS.Math_min raw hi) lo) hi = true.
Proof.
  intros Hr Hlo Hhi Hle.
  destruct (Math_min_cases raw hi Hr Hhi) as [[-> Hrh] | ->].
  - destruct (Math_max_cases raw lo Hr Hlo) as [[-> Hlr] | ->].
    + now split.
    + split; [now apply le_refl|exact Hle].
  - destruct (Math_max_cases hi lo Hhi Hlo) as [[-> _] | ->].
    + split; [exact Hle|now apply le_refl].
    + split; [now apply le_refl|exact Hle].
Qed.

Lemma min_max_inside (raw lo hi : number) :
  JS.is_finite lo = true -> JS.is_finite hi = true ->
  JS.le lo raw = true -> JS.le raw hi = true ->
  JS.Math_max (JS.Math_min raw hi) lo = raw.
Proof.
  intros Hlo Hhi Hlr Hrh.
  destruct lo as [| | |sl ml el]; try discriminate Hlo.
  destruct hi as [| | |sh mh eh]; try discriminate Hhi.
  assert (Hmin : JS.Math_min raw (S754_finite sh mh eh) = raw).
  { unfold JS.Math_min. unfold JS.le, SFleb in Hrh.
    destruct raw as [[]|[]| |sr mr er]; try discriminate Hrh;
      try reflexivity; try (destruct sh; (reflexivity || discriminate Hrh)).
    destruct (SFcompare (S754_finite sr mr er) (S754_finite sh mh eh))
      as [[]|]; try discriminate Hrh; reflexivity. }
  rewrite Hmin. unfold JS.Math_max. unfold JS.le, SFleb in Hlr.
  rewrite (compare_antisym (S754_finite sl ml el) raw).
  destruct raw as [[]|[]| |sr mr er]; try discriminate Hlr;
    try reflexivity; try (destruct sl; (reflexivity || discriminate Hlr)).
  destruct (SFcompare (S754_finite sl ml el) (S754_finite sr mr er))
    as [[]|]; try discriminate Hlr; reflexivity.
Qed.

(** X13: when the raw change between the two cached bits lies within
    [-33.34, 33.34], the per-block change of the snapshot is that raw
    change itself: the clamp alters only values outside its bounds. *)
Theorem perBlockChange_unclamped_inside
    (blocks : BlocksApi) (DATime : number) (q : option number)
    (nowSeconds blockHeight previousRetarget : number) (network : string)
    (latestBlockTimestamp : number) (l p : Block) (raw : number) :
  JS.lt blockHeight (getActivationHeight network) = false ->
  Digishield.latest (blocksCache blocks) = Some l ->
  Digishield.prev (blocksCache blocks) = Some p ->
  pctChangeFromBits (bits p) (bits l) = Ok raw ->
  JS.le DIGI_MAX_DOWN raw = true -> JS.le raw DIGI_MAX_UP = true ->
  exists s,
    calcDifficultyAdjustment blocks DATime q nowSeconds blockHeight
      previousRetarget network latestBlockTimestamp = Ok s /\
    difficultyChange s = raw.
Proof.
  intros Hera Hl Hp Hraw Hlo Hhi.
  rewrite calcDifficultyAdjustment_per_block by exact Hera.
  unfold Digishield.perBlockChange. rewrite Hl, Hp, Hraw. simpl.
  eexists. split; [reflexivity|]. simpl.
  now apply min_max_inside.
Qed.

Lemma perBlockChange_unclamped_inside_witness :
  JS.le DIGI_MAX_DOWN (S754_finite false 6917529027686400 (-62)) = true /\
  JS.le (S754_finite false 6917529027686400 (-62)) DIGI_MAX_UP = true /\
  exists s,
    calcDifficultyAdjustment closeBlocks (JS.of_Z 1000) None (JS.of_Z 1090)
      (JS.of_Z 115000) (JS.of_Z 5) "mainnet" (JS.of_Z 1060) = Ok s /\
    difficultyChange s = S754_finite false 6917529027686400 (-62).
Proof.
  split; [reflexivity|]. split; [reflexivity|].
  apply (perBlockChange_unclamped_inside closeBlocks (JS.of_Z 1000) None
           (JS.of_Z 1090) (JS.of_Z 115000) (JS.of_Z 5) "mainnet"
           (JS.of_Z 1060) (block 486604798 1060) (block 486604799 1000));
    [reflexivity|reflexivity|reflexivity|vm_compute; reflexivity
    |reflexivity|reflexivity].
Defined.

(** ** The two-argument change between bits *)

(** X14: [calcBitsDifference] throws exactly what [pctChangeFromBits]
    throws on its two arguments, and otherwise returns a number within
    the bounds of the era of the provider's current height: [-75, 300]
    below the activation height and [-33.34, 33.34] from it on.  It never
    returns NaN. *)
Theorem calcBitsDifference_within_bounds
    (blocks : BlocksApi) (network : string) (oldBits newBits : number) :
  match pctChangeFromBits oldBits newBits with
  | Throw e => calcBitsDifference blocks network oldBits newBits = Throw e
  | Ok _ =>
      exists c,
        calcBitsDifference blocks network oldBits newBits = Ok c /\
        if JS.lt (currentHeight blocks) (getActivationHeight network)
        then JS.le (JS.of_Z (-75)) c = true /\ JS.le c (JS.of_Z 300) = true
        else JS.le DIGI_MAX_DOWN c = true /\ JS.le c DIGI_MAX_UP = true
  end.
Proof.
  unfold calcBitsDifference, currentHeight.
  destruct (pctChangeFromBits oldBits newBits) as [raw|e] eqn:Hraw;
    simpl; [|reflexivity].
  pose proof (pctChangeFromBits_not_nan _ _ _ Hraw) as Hn.
  destruct (JS.lt _ (getActivationHeight network)).
  - eexists. split; [reflexivity|]. now apply min_max_range.
  - eexists. split; [reflexivity|]. now apply min_max_range.
Qed.

(** X15: after activation, the per-block change of the estimator's
    snapshot is what [calcBitsDifference] returns for the bits of the
    previous and the latest cached block, and the estimator throws when
    that call throws, provided the provider's current height is not below
    the activation height either. *)
Theorem perBlockChange_agrees_with_calcBitsDifference
    (blocks : BlocksApi) (DATime : number) (q : option number)
    (nowSeconds blockHeight previousRetarget : number) (network : string)
    (latestBlockTimestamp : number) (l p : Block) :
  JS.lt blockHeight (getActivationHeight network) = false ->
  JS.lt (currentHeight blocks) (getActivationHeight network) = false ->
  Digishield.latest (blocksCache blocks) = Some l ->
  Digishield.prev (blocksCache blocks) = Some p ->
  match calcBitsDifference blocks network (bits p) (bits l) with
  | Ok c =>
      exists s,
        calcDifficultyAdjustment blocks DATime q nowSeconds blockHeight
          previousRetarget network latestBlockTimestamp = Ok s /\
        difficultyChange s = c
  | Throw e =>
      calcDifficultyAdjustment blocks DATime q nowSeconds blockHeight
        previousRetarget network latestBlockTimestamp = Throw e
  end.
Proof.
  intros Hera Hcur Hl Hp.
  rewrite calcDifficultyAdjustment_per_block by exact Hera.
  unfold calcBitsDifference, Digishield.perBlockChange, Digishield.clamp.
  fold (currentHeight blocks). rewrite Hcur, Hl, Hp.
  destruct (pctChangeFromBits (bits p) (bits l)) as [raw|e]; simpl;
    [|reflexivity].
  eexists. split; reflexivity.
Qed.

Lemma perBlockChange_agrees_with_calcBitsDifference_witness :
  JS.lt (JS.of_Z 115000) (getActivationHeight "mainnet") = false /\
  JS.lt (currentHeight easierBlocks) (getActivationHeight "mainnet") = false /\
  calcBitsDifference easierBlocks "mainnet" bits_1d00ffff bits_1d01ffff =
    Ok DIGI_MAX_DOWN /\
  exists s,
    calcDifficultyAdjustment easierBlocks (JS.of_Z 1000) None (JS.of_Z 1090)
      (JS.of_Z 115000) (JS.of_Z 5) "mainnet" (JS.of_Z 1060) = Ok s /\
    difficultyChange s = DIGI_MAX_DOWN.
Proof.
  split; [reflexivity|]. split; [reflexivity|].
  split; [vm_compute; reflexivity|].
  exact (perBlockChange_agrees_with_calcBitsDifference easierBlocks
           (JS.of_Z 1000) None (JS.of_Z 1090) (JS.of_Z 115000) (JS.of_Z 5)
           "mainnet" (JS.of_Z 1060) (block 486670335 1060)
           (block 486604799 1000) eq_refl eq_refl eq_refl eq_refl).
Defined.

(** ** Rounding against a power of two *)

Lemma shr_1_floor (r : shr_record) :
  0 <= shr_m r -> shr_m r < (shr_m (shr_1 r) + 1) * 2.
Proof.
  destruct r as [m r s]. simpl.
  destruct m as [|[p|p|]|p]; simpl; lia.
Qed.

Lemma iter_shr_1_floor (p : positive) (r : shr_record) :
  0 <= shr_m r ->
  shr_m r < (shr_m (iter_pos shr_1 p r) + 1) * 2 ^ Zpos p.
Proof.
  revert r. induction p as [p IH|p IH|]; intros r Hr; simpl iter_pos.
  - destruct (shr_1_bound r Hr) as [H0 _].
    pose proof (shr_1_floor r Hr) as H1.
    destruct (iter_shr_1_bound p _ H0) as [H2 _].
    pose proof (IH _ H0) as H3. pose proof (IH _ H2) as H4.
    replace (Zpos p~1) with (Zpos p + Zpos p + 1) by lia.
    rewrite !Z.pow_add_r by lia. change (2 ^ 1) with 2.
    pose proof (pow2_pos (Zpos p) ltac:(lia)). nia.
  - destruct (iter_shr_1_bound p _ Hr) as [H2 _].
    pose proof (IH _ Hr) as H3. pose proof (IH _ H2) as H4.
    replace (Zpos p~0) with (Zpos p + Zpos p) by lia.
    rewrite Z.pow_add_r by lia.
    pose proof (pow2_pos (Zpos p) ltac:(lia)). nia.
  - change (2 ^ 1) with 2. now apply shr_1_floor.
Qed.

(** The shift of [shr_fexp]: where it stops and what it keeps. *)
Lemma shr_fexp_floor (m e : Z) (l : location) :
  0 <= m ->
  let re := shr_fexp JS.prec JS.emax m e l in
  m < (shr_m (fst re) + 1) * 2 ^ (snd re - e).
Proof.
  intros Hm. unfold shr_fexp, shr.
  set (n := fexp _ _ _ - e).
  assert (Hr : shr_m (shr_record_of_loc m l) = m) by apply shr_record_of_loc_m.
  destruct n as [|p|p] eqn:Hn; simpl fst; simpl snd.
  - rewrite Hr, Z.sub_diag. simpl. lia.
  - pose proof (iter_shr_1_floor p (shr_record_of_loc m l)) as H1.
    rewrite Hr in H1. replace (e + Zpos p - e) with (Zpos p) by lia.
    apply H1. lia.
  - rewrite Hr, Z.sub_diag. simpl. lia.
Qed.

Lemma round_nearest_even_ge (m : Z) (l : location) :
  m <= round_nearest_even m l.
Proof. destruct l as [|[]]; simpl; try lia. destruct (Z.even m); lia. Qed.

Lemma Zdigits2_ge (m k : Z) : 0 <= k -> 2 ^ k <= m -> k + 1 <= Zdigits2 m.
Proof.
  intros Hk Hm. pose proof (pow2_pos k Hk).
  destruct m as [|p|p]; try lia. simpl.
  pose proof (digits2_pos_bounds p) as [_ Hhi].
  assert (Hlt : 2 ^ k < 2 ^ Zpos (digits2_pos p)) by lia.
  apply Z.pow_lt_mono_r_iff in Hlt; lia.
Qed.

Lemma Zdigits2_pow (m : Z) : 0 < m -> 2 ^ (Zdigits2 m - 1) <= m.
Proof.
  destruct m as [|p|p]; try lia. intros _. simpl.
  apply digits2_pos_bounds.
Qed.

(** Rounding a value below [2 ^ k] gives at most [2 ^ k]. *)
Lemma binary_round_aux_upper (sx : bool) (mx ex : Z) (lx : location) (k : Z) :
  0 <= mx < 2 ^ (k - ex) -> -1074 <= k ->
  match binary_round_aux JS.prec JS.emax sx mx ex lx with
  | S754_finite _ m e => ex <= e /\ Zpos m * 2 ^ (e - ex) <= 2 ^ (k - ex)
  | _ => True
  end.
Proof.
  intros [H0 Hlt] Hk.
  assert (Hkx : 0 <= k - ex).
  { destruct (Z.le_gt_cases 0 (k - ex)) as [H|H]; [exact H|].
    rewrite Z.pow_neg_r in Hlt by lia. lia. }
  unfold binary_round_aux.
  pose proof (shr_fexp_spec mx ex lx H0) as H1. cbv zeta in H1.
  destruct (shr_fexp JS.prec JS.emax mx ex lx) as [r1 e1].
  simpl fst in H1; simpl snd in H1. destruct H1 as (He1 & Hm1 & Hb1).
  pose proof (round_nearest_even_bound _ (loc_of_shr_record r1) Hm1) as Hm2.
  set (m2 := round_nearest_even (shr_m r1) (loc_of_shr_record r1)) in *.
  pose proof (shr_fexp_spec m2 e1 loc_Exact (proj1 Hm2)) as H2.
  cbv zeta in H2.
  destruct (shr_fexp JS.prec JS.emax m2 e1 loc_Exact) as [r2 e2].
  simpl fst in H2; simpl snd in H2. destruct H2 as (He2 & Hm3 & Hb3).
  assert (Hd : Zdigits2 mx <= k - ex) by (apply Zdigits2_le; lia).
  assert (He1k : e1 <= k).
  { pose proof (fexp_mono (Zdigits2 mx + ex) k ltac:(lia)) as Hf.
    rewrite !fexp_eq in *. lia. }
  assert (He1ex : ex <= e1) by lia.
  assert (He12 : e1 <= e2) by lia.
  assert (Hm1lt : shr_m r1 < 2 ^ (k - e1)).
  { replace (k - ex) with ((k - e1) + (e1 - ex)) in Hlt by lia.
    rewrite Z.pow_add_r in Hlt by lia.
    pose proof (pow2_pos (e1 - ex) ltac:(lia)).
    pose proof (pow2_pos (k - e1) ltac:(lia)). nia. }
  destruct (shr_m r2) as [|m|m] eqn:Hm; auto.
  destruct (e2 <=? JS.emax - JS.prec); auto.
  split; [lia|].
  replace (e2 - ex) with ((e2 - e1) + (e1 - ex)) by lia.
  replace (k - ex) with ((k - e1) + (e1 - ex)) by lia.
  rewrite !Z.pow_add_r by lia.
  pose proof (pow2_pos (e1 - ex) ltac:(lia)).
  assert (Zpos m * 2 ^ (e2 - e1) <= 2 ^ (k - e1)) by lia.
  nia.
Qed.

(** Rounding a value that is at least [2 ^ k] gives at least [2 ^ k]. *)
Lemma binary_round_aux_lower (sx : bool) (mx ex : Z) (lx : location) (k : Z) :
  1 <= mx -> (ex <= k -> 2 ^ (k - ex) <= mx) -> -1074 <= k ->
  match binary_round_aux JS.prec JS.emax sx mx ex lx with
  | S754_finite s m e =>
      s = sx /\ fexp JS.prec JS.emax (k + 1) <= e /\
      (e <= k -> 2 ^ (k - e) <= Zpos m)
  | S754_infinity s => s = sx
  | _ => False
  end.
Proof.
  intros H1x Hge Hk.
  assert (H0 : 0 <= mx) by lia.
  unfold binary_round_aux.
  pose proof (shr_fexp_spec mx ex lx H0) as H1. cbv zeta in H1.
  pose proof (shr_fexp_floor mx ex lx H0) as F1. cbv zeta in F1.
  destruct (shr_fexp JS.prec JS.emax mx ex lx) as [r1 e1].
  simpl fst in *; simpl snd in *. destruct H1 as (He1 & Hm1 & Hb1).
  pose proof (round_nearest_even_ge (shr_m r1) (loc_of_shr_record r1)) as Hm2.
  set (m2 := round_nearest_even (shr_m r1) (loc_of_shr_record r1)) in *.
  assert (Hm20 : 0 <= m2) by lia.
  pose proof (shr_fexp_spec m2 e1 loc_Exact Hm20) as H2. cbv zeta in H2.
  pose proof (shr_fexp_floor m2 e1 loc_Exact Hm20) as F2. cbv zeta in F2.
  destruct (shr_fexp JS.prec JS.emax m2 e1 loc_Exact) as [r2 e2].
  simpl fst in *; simpl snd in *. destruct H2 as (He2 & Hm3 & Hb3).
  (* digits of the input *)
  assert (HD : k + 1 <= Zdigits2 mx + ex).
  { destruct (Z.le_gt_cases ex k) as [Hle|Hgt].
    - pose proof (Zdigits2_ge mx (k - ex) ltac:(lia) (Hge Hle)). lia.
    - pose proof (Zdigits2_ge mx 0 ltac:(lia) ltac:(simpl; lia)). lia. }
  assert (Hf1 : fexp JS.prec JS.emax (k + 1) <= e1).
  { pose proof (fexp_mono (k + 1) (Zdigits2 mx + ex) HD). lia. }
  (* the first shift keeps at least 2^(k - e1), and at least 1 *)
  assert (Hm1k : e1 <= k -> 2 ^ (k - e1) <= shr_m r1).
  { intros Hle. assert (Hxk : ex <= k) by lia. specialize (Hge Hxk).
    replace (k - ex) with ((k - e1) + (e1 - ex)) in Hge by lia.
    rewrite Z.pow_add_r in Hge by lia.
    pose proof (pow2_pos (e1 - ex) ltac:(lia)).
    pose proof (pow2_pos (k - e1) ltac:(lia)). nia. }
  assert (Hm11 : 1 <= shr_m r1).
  { destruct (Z.le_gt_cases e1 k) as [Hle|Hgt].
    - pose proof (Hm1k Hle). pose proof (pow2_pos (k - e1) ltac:(lia)). lia.
    - destruct (Z.eq_dec e1 ex) as [->|Hne].
      + rewrite Z.sub_diag in F1. simpl in F1. lia.
      + assert (He1f : e1 = Zdigits2 mx + ex - 53)
          by (rewrite fexp_eq in He1; lia).
        pose proof (Zdigits2_pow mx ltac:(lia)) as Hp.
        replace (Zdigits2 mx - 1) with (52 + (e1 - ex)) in Hp by lia.
        rewrite Z.pow_add_r in Hp by lia.
        pose proof (pow2_pos (e1 - ex) ltac:(lia)).
        assert (2 ^ 52 < shr_m r1 + 1) by nia. 
        assert (0 < 2 ^ 52) by reflexivity. lia. }
  assert (Hm21 : 1 <= m2) by lia.
  assert (He1min : -1074 <= e1) by (rewrite fexp_eq in He1; lia).
  assert (Hm31 : 1 <= shr_m r2).
  { destruct (Z.eq_dec e2 e1) as [->|Hne].
    - rewrite Z.sub_diag in F2. simpl in F2. lia.
    - assert (He2f : e2 = Zdigits2 m2 + e1 - 53)
        by (rewrite fexp_eq in He2; lia).
      pose proof (Zdigits2_pow m2 ltac:(lia)) as Hp.
      replace (Zdigits2 m2 - 1) with (52 + (e2 - e1)) in Hp by lia.
      rewrite Z.pow_add_r in Hp by lia.
      pose proof (pow2_pos (e2 - e1) ltac:(lia)).
      assert (2 ^ 52 < shr_m r2 + 1) by nia.
      assert (0 < 2 ^ 52) by reflexivity. lia. }
  destruct (shr_m r2) as [|m|m] eqn:Hm; try lia.
  destruct (e2 <=? JS.emax - JS.prec); [|reflexivity].
  split; [reflexivity|]. split; [lia|].
  intros Hle. assert (He1k : e1 <= k) by lia. specialize (Hm1k He1k).
  assert (Hm2k : 2 ^ (k - e1) <= m2) by lia.
  replace (k - e1) with ((k - e2) + (e2 - e1)) in Hm2k by lia.
  rewrite Z.pow_add_r in Hm2k by lia.
  pose proof (pow2_pos (e2 - e1) ltac:(lia)).
  pose proof (pow2_pos (k - e2) ltac:(lia)). nia.
Qed.

(** ** Integers as numbers *)

Lemma digits2_pos_unique (m : positive) (n : Z) :
  2 ^ (n - 1) <= Zpos m < 2 ^ n -> Zpos (digits2_pos m) = n.
Proof.
  intros [Hlo Hhi]. pose proof (digits2_pos_bounds m) as [Dlo Dhi].
  assert (0 <= n).
  { destruct (Z.le_gt_cases 0 n) as [H|H]; [exact H|].
    rewrite Z.pow_neg_r in Hhi by lia. lia. }
  assert (H1 : 2 ^ (Zpos (digits2_pos m) - 1) < 2 ^ n) by lia.
  apply Z.pow_lt_mono_r_iff in H1; [|lia|lia].
  destruct (Z.eq_dec n 0) as [->|Hn].
  - simpl in Hhi. lia.
  - assert (H2 : 2 ^ (n - 1) < 2 ^ Zpos (digits2_pos m)) by lia.
    apply Z.pow_lt_mono_r_iff in H2; lia.
Qed.

(** A positive integer below 2^53 is held exactly, on 53 digits. *)
Lemma of_Z_small (p : positive) :
  Zpos p < 2 ^ 53 ->
  exists m e,
    JS.of_Z (Zpos p) = S754_finite false m e /\
    -52 <= e <= 0 /\ Zpos m = Zpos p * 2 ^ (- e).
Proof.
  intros Hp.
  pose proof (digits2_pos_bounds p) as [Dlo Dhi].
  set (d := Zpos (digits2_pos p)) in *.
  assert (Hd : 1 <= d <= 53).
  { split; [subst d; lia|].
    pose proof (Zdigits2_le (Zpos p) 53 ltac:(lia) ltac:(lia)) as H.
    exact H. }
  unfold JS.of_Z, binary_normalize, binary_round.
  replace (fexp JS.prec JS.emax (Zpos (digits2_pos p) + 0)) with (d - 53)
    by (rewrite fexp_eq; fold d; lia).
  destruct (shl_align_spec p 0 (d - 53)) as [Hez Hmz].
  destruct (shl_align p 0 (d - 53)) as [mz ez].
  cbn [fst snd] in Hez, Hmz |- *.
  clearbody d.
  rewrite Z.min_r in Hez by lia. subst ez.
  replace (0 - (d - 53)) with (53 - d) in Hmz by lia.
  assert (Hdig : Zpos (digits2_pos mz) = 53).
  { apply digits2_pos_unique. rewrite Hmz.
    pose proof (pow2_pos (53 - d) ltac:(lia)) as Hpow.
    assert (E1 : 2 ^ (53 - 1) = 2 ^ (d - 1) * 2 ^ (53 - d))
      by (rewrite <- Z.pow_add_r by lia; f_equal; lia).
    assert (E2 : 2 ^ 53 = 2 ^ d * 2 ^ (53 - d))
      by (rewrite <- Z.pow_add_r by lia; f_equal; lia).
    rewrite E1, E2. split.
    - apply Z.mul_le_mono_nonneg_r; lia.
    - apply Z.mul_lt_mono_pos_r; lia. }
  exists mz, (d - 53). split; [|split; [lia|]].
  - unfold binary_round_aux, shr_fexp. cbn [Zdigits2]. rewrite Hdig.
    replace (fexp JS.prec JS.emax (53 + (d - 53)) - (d - 53)) with 0
      by (rewrite fexp_eq; lia).
    cbn [shr shr_record_of_loc shr_m loc_of_shr_record round_nearest_even
         Zdigits2].
    rewrite Hdig.
    replace (fexp JS.prec JS.emax (53 + (d - 53)) - (d - 53)) with 0
      by (rewrite fexp_eq; lia).
    cbn [shr shr_m].
    replace (d - 53 <=? JS.emax - JS.prec) with true; [reflexivity|].
    symmetry. apply Z.leb_le. unfold JS.emax, JS.prec. lia.
  - rewrite Hmz. f_equal. f_equal. lia.
Qed.

(** An integer from 2^53 on becomes Infinity or a number that is at least
    2^53. *)
Lemma of_Z_big (p : positive) :
  2 ^ 53 <= Zpos p ->
  match JS.of_Z (Zpos p) with
  | S754_finite s m e => s = false /\ 1 <= e /\ (e <= 53 -> 2 ^ (53 - e) <= Zpos m)
  | S754_infinity s => s = false
  | _ => False
  end.
Proof.
  intros Hp.
  pose proof (Zdigits2_ge (Zpos p) 53 ltac:(lia) Hp) as Hd. simpl in Hd.
  unfold JS.of_Z, binary_normalize, binary_round.
  assert (Hf : 1 <= fexp JS.prec JS.emax (Zpos (digits2_pos p) + 0))
    by (rewrite fexp_eq; lia).
  unfold shl_align.
  destruct (fexp JS.prec JS.emax (Zpos (digits2_pos p) + 0) - 0) eqn:Hs;
    try lia.
  pose proof (binary_round_aux_lower false (Zpos p) 0 loc_Exact 53
                ltac:(lia) ltac:(intros _; exact Hp) ltac:(lia)) as H.
  destruct (binary_round_aux JS.prec JS.emax false (Zpos p) 0 loc_Exact);
    auto.
Qed.

(** ** The quotient by the scale, against 1 *)

Lemma of_Z_SCALE : JS.of_Z SCALE = S754_finite false 8589934592000000 (-33).
Proof. reflexivity. Qed.

Lemma of_Z_1 : JS.of_Z 1 = S754_finite false 4503599627370496 (-52).
Proof. reflexivity. Qed.

Lemma of_Z_100 : JS.of_Z 100 = S754_finite false 7036874417766400 (-46).
Proof. reflexivity. Qed.

(** The integer quotient that [SFdiv] rounds, and its exponent. *)
Lemma div_core_spec (m1 : positive) (e1 : Z) (m2 : positive) (e2 : Z) :
  let c := SFdiv_core_binary JS.prec JS.emax (Zpos m1) e1 (Zpos m2) e2 in
  let q := fst (fst c) in
  let e' := snd (fst c) in
  e' = Z.min (fexp JS.prec JS.emax
                (Zdigits2 (Zpos m1) + e1 - (Zdigits2 (Zpos m2) + e2)))
             (e1 - e2) /\
  0 <= q /\
  q * Zpos m2 <= Zpos m1 * 2 ^ (e1 - e2 - e') < (q + 1) * Zpos m2.
Proof.
  unfold SFdiv_core_binary.
  match goal with
  | |- context [Z.min ?a ?b] => remember (Z.min a b) as e' eqn:He'
  end.
  remember (e1 - e2 - e') as s eqn:Es.
  assert (Hs : 0 <= s).
  { subst s e'. apply Zle_minus_le_0, Z.le_min_r. }
  match goal with
  | |- context [Z.div_eucl ?x _] => assert (Hm' : x = Zpos m1 * 2 ^ s)
  end.
  { destruct s as [|p|p]; [|now rewrite Z.shiftl_mul_pow2 by lia|lia].
    now rewrite Z.pow_0_r, Z.mul_1_r. }
  match goal with
  | |- context [Z.div_eucl ?x _] =>
      pose proof (Z_div_mod x (Zpos m2) ltac:(lia)) as Hd;
      destruct (Z.div_eucl x (Zpos m2)) as [q r]
  end.
  cbn [fst snd]. destruct Hd as [Hd Hr]. subst s. rewrite <- Hm'.
  split; [reflexivity|]. split; nia.
Qed.

Lemma pow2_split (a b : Z) : 0 <= a -> 0 <= b -> 2 ^ (a + b) = 2 ^ a * 2 ^ b.
Proof. intros. now apply Z.pow_add_r. Qed.

(** A number below 10^6, divided by the scale, is at most 1. *)
Lemma div_by_scale_upper (m1 : positive) (e1 : Z) :
  e1 <= 0 -> Zpos m1 < 1000000 * 2 ^ (- e1) ->
  match JS.div (S754_finite false m1 e1) (JS.of_Z SCALE) with
  | S754_zero s => s = false
  | S754_finite s m e => s = false /\ e <= -52 /\ Zpos m <= 2 ^ (- e)
  | _ => False
  end.
Proof.
  intros He1 Hlt. rewrite of_Z_SCALE. unfold JS.div, SFdiv.
  pose proof (div_core_spec m1 e1 8589934592000000 (-33)) as Hc.
  cbv zeta in Hc.
  destruct (SFdiv_core_binary _ _ _ _ _ _) as [[q e'] l].
  cbn [fst snd] in Hc. destruct Hc as (He' & Hq0 & Hq & _).
  change (Zdigits2 8589934592000000) with 53 in He'.
  pose proof (pow2_pos (- e1) ltac:(lia)) as Hp1.
  assert (Hm20 : Zpos m1 < 2 ^ (20 - e1)).
  { replace (20 - e1) with (20 + - e1) by lia.
    rewrite pow2_split by lia. change (2 ^ 20) with 1048576. nia. }
  assert (HD : Zdigits2 (Zpos m1) <= 20 - e1)
    by (apply Zdigits2_le; lia).
  assert (He'53 : e' <= -53).
  { pose proof (fexp_mono (Zdigits2 (Zpos m1) + e1 - (53 + -33)) 0
                  ltac:(lia)) as Hf.
    rewrite fexp_eq in Hf. rewrite !fexp_eq in He'. lia. }
  assert (Hs : 0 <= e1 - -33 - e') by lia.
  assert (Hqlt : q < 2 ^ (0 - e')).
  { set (P := 2 ^ (e1 - -33 - e')) in *.
    set (A := 2 ^ (- e1)) in *.
    assert (HP : 0 < P) by (apply pow2_pos; lia).
    assert (E1 : A * P = 8589934592 * 2 ^ (0 - e')).
    { subst A P. change 8589934592 with (2 ^ 33).
      rewrite <- !Z.pow_add_r by lia. f_equal. lia. }
    pose proof (pow2_pos (0 - e') ltac:(lia)) as HB.
    assert (E2 : Zpos m1 * P < 1000000 * (A * P)) by nia.
    rewrite E1 in E2. nia. }
  pose proof (binary_round_aux_upper false q e' l 0 ltac:(lia) ltac:(lia))
    as Hup.
  assert (Hf1 : fexp JS.prec JS.emax (0 + 1) <= -52) by (vm_compute; discriminate).
  pose proof (binary_round_aux_exp_le false q e' l 0 (-52) ltac:(lia)
                ltac:(lia) Hf1) as Hexp.
  pose proof (binary_round_aux_sign false q e' l Hq0) as Hsign.
  cbn [xorb].
  destruct (binary_round_aux JS.prec JS.emax false q e' l) as [s|s| |s m e];
    simpl in Hsign; try discriminate;
    apply eqb_prop in Hsign; subst s.
  - reflexivity.
  - destruct Hup as [Hee Hm]. split; [reflexivity|]. split; [exact Hexp|].
    replace (0 - e') with ((- e) + (e - e')) in Hm by lia.
    rewrite pow2_split in Hm by lia.
    pose proof (pow2_pos (e - e') ltac:(lia)). 
    pose proof (pow2_pos (- e) ltac:(lia)). nia.
Qed.

(** A number that is at least 10^6, divided by the scale, is at least 1. *)
Lemma div_by_scale_lower (m1 : positive) (e1 : Z) :
  (e1 <= 0 -> 1000000 * 2 ^ (- e1) <= Zpos m1) ->
  (0 < e1 -> 1000000 <= Zpos m1 * 2 ^ e1) ->
  match JS.div (S754_finite false m1 e1) (JS.of_Z SCALE) with
  | S754_finite s m e =>
      s = false /\ -52 <= e /\ (e <= 0 -> 2 ^ (- e) <= Zpos m)
  | S754_infinity s => s = false
  | _ => False
  end.
Proof.
  intros Hneg Hpos. rewrite of_Z_SCALE. unfold JS.div, SFdiv.
  pose proof (div_core_spec m1 e1 8589934592000000 (-33)) as Hc.
  cbv zeta in Hc.
  destruct (SFdiv_core_binary _ _ _ _ _ _) as [[q e'] l].
  cbn [fst snd] in Hc. destruct Hc as (He' & Hq0 & _ & Hq).
  change (Zdigits2 8589934592000000) with 53 in He'.
  assert (Hs : 0 <= e1 - -33 - e') by lia.
  set (P := 2 ^ (e1 - -33 - e')) in *.
  assert (HP : 0 < P) by (apply pow2_pos; lia).
  (* the scaled dividend is at least 10^6 * 2^(33 - e') when e' <= 33 *)
  assert (Hlow : e' <= 0 -> 2 ^ (0 - e') <= q).
  { intros He0.
    pose proof (pow2_pos (0 - e') ltac:(lia)) as HB.
    assert (E : 8589934592000000 * 2 ^ (0 - e') <= Zpos m1 * P).
    { destruct (Z.le_gt_cases e1 0) as [Hle|Hgt].
      - specialize (Hneg Hle).
        assert (E1 : 2 ^ (- e1) * P = 8589934592 * 2 ^ (0 - e')).
        { subst P. change 8589934592 with (2 ^ 33).
          rewrite <- !Z.pow_add_r by lia. f_equal. lia. }
        assert (1000000 * (2 ^ (- e1) * P) <= Zpos m1 * P) by nia.
        rewrite E1 in H. lia.
      - specialize (Hpos Hgt).
        assert (E1 : P = 2 ^ e1 * (8589934592 * 2 ^ (0 - e'))).
        { subst P. change 8589934592 with (2 ^ 33).
          rewrite <- !Z.pow_add_r by lia. f_equal. lia. }
        rewrite E1. nia. }
    nia. }
  assert (Hq1 : 1 <= q).
  { destruct (Z.le_gt_cases e' 0) as [Hle|Hgt].
    - pose proof (Hlow Hle). pose proof (pow2_pos (0 - e') ltac:(lia)). lia.
    - assert (He'f : e' <= Zdigits2 (Zpos m1) + e1 - 73)
        by (rewrite fexp_eq in He'; lia).
      pose proof (Zdigits2_pow (Zpos m1) ltac:(lia)) as Hd.
      assert (HD1 : 1 <= Zdigits2 (Zpos m1)) by (cbn [Zdigits2]; lia).
      set (D := Zdigits2 (Zpos m1)) in *. clearbody D.
      assert (E : 2 ^ 53 <= Zpos m1 * P).
      { subst P.
        destruct (Z.le_gt_cases D 106) as [Hsmall|Hbig].
        - replace (e1 - -33 - e')
            with ((e1 - -33 - e' - (106 - D)) + (106 - D)) by lia.
          rewrite pow2_split by lia.
          pose proof (pow2_pos (e1 - -33 - e' - (106 - D)) ltac:(lia)) as Hx.
          assert (E3 : 2 ^ 105 <= Zpos m1 * 2 ^ (106 - D)).
          { replace 105 with ((D - 1) + (106 - D)) by lia.
            rewrite pow2_split by lia.
            apply Z.mul_le_mono_nonneg_r; [|exact Hd].
            apply Z.lt_le_incl, pow2_pos. lia. }
          assert (2 ^ 53 <= 2 ^ 105) by (apply Z.pow_le_mono_r; lia).
          nia.
        - assert (2 ^ 53 <= 2 ^ (D - 1))
            by (apply Z.pow_le_mono_r; lia).
          pose proof (pow2_pos (e1 - -33 - e') ltac:(lia)). nia. }
      assert (8589934592000000 < 2 ^ 53) by reflexivity. nia. }
  pose proof (binary_round_aux_lower false q e' l 0 Hq1
                ltac:(intros; apply Hlow; lia) ltac:(lia)) as Hlo.
  cbn [xorb].
  destruct (binary_round_aux JS.prec JS.emax false q e' l) as [s|s| |s m e];
    auto.
Qed.

(** ** The sign of the change follows the targets *)

Lemma sub_1_nonpositive (m : positive) (e : Z) :
  e <= -52 -> Zpos m <= 2 ^ (- e) ->
  JS.le (JS.mul (JS.sub (S754_finite false m e) (JS.of_Z 1)) (JS.of_Z 100))
        (JS.of_Z 0) = true.
Proof.
  intros He Hm. rewrite of_Z_1, of_Z_100.
  assert (Hsub : JS.is_zero (JS.sub (S754_finite false m e)
                   (S754_finite false 4503599627370496 (-52))) = true \/
                 has_sign true (JS.sub (S754_finite false m e)
                   (S754_finite false 4503599627370496 (-52))) = true).
  { unfold JS.sub, SFsub. replace (Z.min e (-52)) with e by lia.
    destruct (shl_align_spec m e e) as [Hea Ha].
    destruct (shl_align_spec 4503599627370496 (-52) e) as [Heb Hb].
    rewrite Hea in Ha. rewrite Heb in Hb.
    rewrite Z.min_id, Z.sub_diag, Z.pow_0_r, Z.mul_1_r in Ha.
    rewrite Z.min_r in Hb by lia.
    cbn [cond_Zopp]. rewrite Ha, Hb.
    change (Zpos 4503599627370496) with (2 ^ 52).
    rewrite <- Z.pow_add_r by lia. replace (52 + (-52 - e)) with (- e) by lia.
    destruct (Zpos m - 2 ^ (- e)) as [|p|p] eqn:Hd; [now left|lia|].
    right. apply binary_round_sign. }
  destruct Hsub as [Hz|Hs].
  - destruct (JS.sub _ _) as [s| | |]; try discriminate. now destruct s.
  - apply has_sign_true_le_0.
    apply (mul_finite_sign _ true false). exact Hs.
Qed.

Lemma sub_1_nonnegative (m : positive) (e : Z) :
  -52 <= e -> (e <= 0 -> 2 ^ (- e) <= Zpos m) ->
  JS.le (JS.of_Z 0)
        (JS.mul (JS.sub (S754_finite false m e) (JS.of_Z 1)) (JS.of_Z 100))
    = true.
Proof.
  intros He Hm. rewrite of_Z_1, of_Z_100.
  assert (Hsub : has_sign false (JS.sub (S754_finite false m e)
                   (S754_finite false 4503599627370496 (-52))) = true).
  { unfold JS.sub, SFsub. replace (Z.min e (-52)) with (-52) by lia.
    destruct (shl_align_spec m e (-52)) as [Hea Ha].
    destruct (shl_align_spec 4503599627370496 (-52) (-52)) as [Heb Hb].
    rewrite Hea in Ha. rewrite Heb in Hb.
    rewrite Z.min_r in Ha by lia.
    rewrite Z.min_id, Z.sub_diag, Z.pow_0_r, Z.mul_1_r in Hb.
    cbn [cond_Zopp]. rewrite Ha, Hb.
    assert (Hge : 4503599627370496 <= Zpos m * 2 ^ (e - -52)).
    { change 4503599627370496 with (2 ^ 52).
      destruct (Z.le_gt_cases e 0) as [Hle|Hgt].
      - specialize (Hm Hle).
        replace 52 with ((- e) + (e - -52)) at 1 by lia.
        rewrite pow2_split by lia.
        apply Z.mul_le_mono_nonneg_r; [|exact Hm].
        apply Z.lt_le_incl, pow2_pos. lia.
      - assert (2 ^ 52 <= 2 ^ (e - -52)) by (apply Z.pow_le_mono_r; lia).
        nia. }
    destruct (Zpos m * 2 ^ (e - -52) - 4503599627370496) as [|p|p] eqn:Hd;
      [reflexivity| |lia].
    apply binary_round_sign. }
  apply has_sign_false_ge_0.
  apply (mul_finite_sign _ false false). exact Hsub.
Qed.

(** The change computed from a fixed-point ratio [r]. *)
Lemma change_of_ratio_nonpositive (r : Z) :
  0 <= r < 1000000 ->
  JS.le (JS.mul (JS.sub (JS.div (JS.of_Z r) (JS.of_Z SCALE)) (JS.of_Z 1))
                (JS.of_Z 100)) (JS.of_Z 0) = true.
Proof.
  intros [H0 Hr]. destruct r as [|p|p]; [reflexivity| |lia].
  destruct (of_Z_small p) as (m & e & -> & He & Hm).
  { assert (1000000 < 2 ^ 53) by reflexivity. lia. }
  pose proof (div_by_scale_upper m e ltac:(lia)) as Hdiv.
  assert (Hlt : Zpos m < 1000000 * 2 ^ (- e)).
  { rewrite Hm. apply Z.mul_lt_mono_pos_r; [apply pow2_pos; lia|exact Hr]. }
  specialize (Hdiv Hlt).
  destruct (JS.div (S754_finite false m e) (JS.of_Z SCALE))
    as [s|s| |s m' e']; try contradiction.
  - subst s. reflexivity.
  - destruct Hdiv as (-> & He' & Hm'). now apply sub_1_nonpositive.
Qed.

Lemma change_of_ratio_nonnegative (r : Z) :
  1000000 <= r ->
  JS.le (JS.of_Z 0)
        (JS.mul (JS.sub (JS.div (JS.of_Z r) (JS.of_Z SCALE)) (JS.of_Z 1))
                (JS.of_Z 100)) = true.
Proof.
  intros Hr. destruct r as [|p|p]; try lia.
  assert (Hx : match JS.of_Z (Zpos p) with
               | S754_finite s m e =>
                   s = false /\
                   (e <= 0 -> 1000000 * 2 ^ (- e) <= Zpos m) /\
                   (0 < e -> 1000000 <= Zpos m * 2 ^ e)
               | S754_infinity s => s = false
               | _ => False
               end).
  { destruct (Z.lt_ge_cases (Zpos p) (2 ^ 53)) as [Hs|Hb].
    - destruct (of_Z_small p Hs) as (m & e & -> & He & Hm).
      split; [reflexivity|]. split; [|lia].
      intros _. rewrite Hm.
      apply Z.mul_le_mono_nonneg_r; [|exact Hr].
      apply Z.lt_le_incl, pow2_pos. lia.
    - pose proof (of_Z_big p Hb) as H.
      destruct (JS.of_Z (Zpos p)) as [s|s| |s m e]; auto.
      destruct H as (-> & He & Hm). split; [reflexivity|]. split; [lia|].
      intros _. assert (H53 : 1000000 <= 2 ^ 53) by (vm_compute; discriminate).
      destruct (Z.le_gt_cases e 53) as [Hle|Hgt].
      + specialize (Hm Hle).
        assert (2 ^ 53 <= Zpos m * 2 ^ e); [|lia].
        replace 53 with ((53 - e) + e) at 1 by lia.
        rewrite pow2_split by lia.
        apply Z.mul_le_mono_nonneg_r; [|exact Hm].
        apply Z.lt_le_incl, pow2_pos. lia.
      + assert (2 ^ 53 <= 2 ^ e) by (apply Z.pow_le_mono_r; lia).
        pose proof (pow2_pos e ltac:(lia)). nia. }
  destruct (JS.of_Z (Zpos p)) as [s|s| |s m e]; try contradiction.
  - subst s. reflexivity.
  - destruct Hx as (-> & Hneg & Hpos).
    pose proof (div_by_scale_lower m e Hneg Hpos) as Hdiv.
    destruct (JS.div (S754_finite false m e) (JS.of_Z SCALE))
      as [s|s| |s m' e']; try contradiction.
    + subst s. reflexivity.
    + destruct Hdiv as (-> & He' & Hm'). now apply sub_1_nonnegative.
Qed.

Lemma compactToTarget_nonnegative (bits : number) (t : Z) :
  compactToTarget bits = Ok t -> 0 <= t.
Proof.
  intros H. pose proof (compactToTarget_ok_valid _ _ H) as Hv.
  destruct (compactToTarget_valid _ Hv) as (z & Hz & Hc).
  rewrite Hc in H. injection H as <-.
  apply decodedTarget_pos_iff.
  unfold validCompact in Hv. rewrite Hz in Hv.
  apply andb_prop in Hv as [_ Hm]. now apply negb_true_iff, Z.eqb_neq in Hm.
Qed.

Lemma change_sign_of_targets
    (oldBits newBits : number) (oldT newT : Z) (raw : number) :
  compactToTarget oldBits = Ok oldT ->
  compactToTarget newBits = Ok newT ->
  pctChangeFromBits oldBits newBits = Ok raw ->
  (oldT < newT -> JS.le raw (JS.of_Z 0) = true) /\
  (newT <= oldT -> JS.le (JS.of_Z 0) raw = true).
Proof.
  intros Ho Hn. pose proof (compactToTarget_nonnegative _ _ Ho) as Ho0.
  pose proof (compactToTarget_nonnegative _ _ Hn) as Hn0.
  unfold pctChangeFromBits, bigint_div. rewrite Ho, Hn. simpl.
  destruct (Z.eqb_spec newT 0) as [->|Hnz]; simpl; [discriminate|].
  intros [= <-]. split; intros Hcmp.
  - apply change_of_ratio_nonpositive. unfold SCALE. split.
    + apply Z.quot_pos; lia.
    + apply Z.quot_lt_upper_bound; lia.
  - apply change_of_ratio_nonnegative. unfold SCALE.
    apply Z.quot_le_lower_bound; lia.
Qed.

(** X16: the sign of [pctChangeFromBits] follows the targets, as its
    comment says ("+% when target shrinks"): the change is at most 0 when
    the new target is larger than the old one and at least 0 when it is
    not, whatever the rounding of the fixed-point ratio. *)
Theorem pctChangeFromBits_sign
    (oldBits newBits : number) (oldT newT : Z) (raw : number) :
  compactToTarget oldBits = Ok oldT ->
  compactToTarget newBits = Ok newT ->
  pctChangeFromBits oldBits newBits = Ok raw ->
  (oldT < newT -> JS.le raw (JS.of_Z 0) = true) /\
  (newT <= oldT -> JS.le (JS.of_Z 0) raw = true).
Proof. exact (change_sign_of_targets oldBits newBits oldT newT raw). Qed.

Lemma pctChangeFromBits_sign_witness :
  compactToTarget bits_1d00ffff = Ok (65535 * 2 ^ 208) /\
  compactToTarget bits_1d01ffff = Ok (131071 * 2 ^ 208) /\
  pctChangeFromBits bits_1d00ffff bits_1d01ffff =
    Ok (S754_finite true 7036930712761742 (-47)) /\
  (65535 * 2 ^ 208 < 131071 * 2 ^ 208 ->
   JS.le (S754_finite true 7036930712761742 (-47)) (JS.of_Z 0) = true) /\
  (131071 * 2 ^ 208 <= 65535 * 2 ^ 208 ->
   JS.le (JS.of_Z 0) (S754_finite true 7036930712761742 (-47)) = true).
Proof.
  split; [reflexivity|]. split; [reflexivity|].
  split; [vm_compute; reflexivity|].
  apply (pctChangeFromBits_sign bits_1d00ffff bits_1d01ffff);
    vm_compute; reflexivity.
Defined.

(** ** The sign of the per-block change *)

Lemma clamp_nonpositive (raw : number) :
  JS.le raw (JS.of_Z 0) = true ->
  JS.le (Digishield.clamp raw) (JS.of_Z 0) = true.
Proof.
  intros H. unfold Digishield.clamp.
  assert (Hlt : JS.lt raw DIGI_MAX_UP = true).
  { destruct raw as [[]|[]| |[] m e]; try discriminate H; reflexivity. }
  rewrite (Math_min_lt _ _ Hlt).
  assert (Hn : JS.is_nan raw = false) by (destruct raw; auto; discriminate).
  destruct (Math_max_cases raw DIGI_MAX_DOWN Hn eq_refl) as [[-> _]| ->];
    [exact H|reflexivity].
Qed.

Lemma clamp_nonnegative (raw : number) :
  JS.le (JS.of_Z 0) raw = true ->
  JS.le (JS.of_Z 0) (Digishield.clamp raw) = true.
Proof.
  intros H. unfold Digishield.clamp.
  assert (Hn : JS.is_nan raw = false) by (destruct raw; auto; discriminate).
  assert (Hmin : JS.le (JS.of_Z 0) (JS.Math_min raw DIGI_MAX_UP) = true).
  { destruct (Math_min_cases raw DIGI_MAX_UP Hn eq_refl) as [[-> _]| ->];
      [exact H|reflexivity]. }
  assert (Hgt : JS.lt DIGI_MAX_DOWN (JS.Math_min raw DIGI_MAX_UP) = true).
  { destruct (JS.Math_min raw DIGI_MAX_UP) as [[]|[]| |[] m e];
      try discriminate Hmin; reflexivity. }
  now rewrite (Math_max_gt _ _ Hgt).
Qed.

(** X17: after activation, the snapshot's difficulty change is at most 0
    when the latest cached block has a larger target than the block before
    it, and at least 0 when its target is smaller or equal. *)
Theorem perBlockChange_sign
    (blocks : BlocksApi) (DATime : number) (q : option number)
    (nowSeconds blockHeight previousRetarget : number) (network : string)
    (latestBlockTimestamp : number) (l p : Block) (tl tp : Z)
    (s : DifficultyAdjustment) :
  JS.lt blockHeight (getActivationHeight network) = false ->
  Digishield.latest (blocksCache blocks) = Some l ->
  Digishield.prev (blocksCache blocks) = Some p ->
  compactToTarget (bits l) = Ok tl ->
  compactToTarget (bits p) = Ok tp ->
  calcDifficultyAdjustment blocks DATime q nowSeconds blockHeight
    previousRetarget network latestBlockTimestamp = Ok s ->
  (tp < tl -> JS.le (difficultyChange s) (JS.of_Z 0) = true) /\
  (tl <= tp -> JS.le (JS.of_Z 0) (difficultyChange s) = true).
Proof.
  intros Hera Hl Hp Htl Htp.
  rewrite calcDifficultyAdjustment_per_block by exact Hera.
  unfold Digishield.perBlockChange. rewrite Hl, Hp.
  destruct (pctChangeFromBits (bits p) (bits l)) as [raw|e] eqn:Hraw;
    simpl; [|discriminate].
  intros [= <-]. simpl.
  pose proof (change_sign_of_targets _ _ _ _ _ Htp Htl Hraw) as Hsign.
  destruct Hsign as [Hneg Hpos]. split; intros Hcmp.
  - now apply clamp_nonpositive, Hneg.
  - now apply clamp_nonnegative, Hpos.
Qed.

Lemma perBlockChange_sign_witness :
  exists s,
    calcDifficultyAdjustment easierBlocks (JS.of_Z 1000) None (JS.of_Z 1090)
      (JS.of_Z 115000) (JS.of_Z 5) "mainnet" (JS.of_Z 1060) = Ok s /\
    (65535 * 2 ^ 208 < 131071 * 2 ^ 208 ->
     JS.le (difficultyChange s) (JS.of_Z 0) = true) /\
    (131071 * 2 ^ 208 <= 65535 * 2 ^ 208 ->
     JS.le (JS.of_Z 0) (difficultyChange s) = true).
Proof.
  eexists. split; [vm_compute; reflexivity|].
  apply (perBlockChange_sign easierBlocks (JS.of_Z 1000) None (JS.of_Z 1090)
           (JS.of_Z 115000) (JS.of_Z 5) "mainnet" (JS.of_Z 1060)
           (block 486670335 1060) (block 486604799 1000));
    vm_compute; reflexivity.
Defined.

(** ** One block interval ahead in both eras *)

Lemma add_comm (x y : number) : JS.add x y = JS.add y x.
Proof.
  destruct x as [sx|sx| |sx mx ex], y as [sy|sy| |sy my ey]; simpl;
    try reflexivity; try (destruct sx, sy; reflexivity).
  unfold JS.add, SFadd. now rewrite (Z.min_comm ey ex), Z.add_comm.
Qed.

(** X18: without a quarter-epoch time and at an integer height, every
    snapshot, before or after activation, has an adjusted average interval
    and a remaining time of 60000 ms and an estimated retarget date of
    [nowSeconds * 1000 + 60000]. *)
Theorem next_retarget_one_interval_ahead
    (blocks : BlocksApi) (DATime : number)
    (nowSeconds blockHeight previousRetarget : number) (network : string)
    (latestBlockTimestamp : number) (s : DifficultyAdjustment) :
  calcDifficultyAdjustment blocks DATime None nowSeconds blockHeight
    previousRetarget network latestBlockTimestamp = Ok s ->
  JS.isInteger blockHeight = true ->
  adjustedTimeAvg s = JS.of_Z 60000 /\
  remainingTime s = JS.of_Z 60000 /\
  estimatedRetargetDate s =
    JS.add (JS.mul nowSeconds (JS.of_Z 1000)) (JS.of_Z 60000).
Proof.
  unfold calcDifficultyAdjustment.
  destruct (JS.lt blockHeight (getActivationHeight network)).
  - intros [= <-] Hint. simpl.
    unfold Legacy.adjustedTimeAvgSecs, Legacy.smoothing, Legacy.timeAvgSecs,
      Legacy.remainingBlocks.
    pose proof (blocksInEpoch_integer _ Hint) as Hz.
    destruct (Legacy.blocksInEpoch blockHeight) as [[]| | |];
      try discriminate; (split; [reflexivity|]; split; [reflexivity|]);
      apply add_comm.
  - destruct (Digishield.perBlockChange _); simpl; [|discriminate].
    intros [= <-] _. repeat split.
Qed.

Lemma next_retarget_one_interval_ahead_witness :
  exists s,
    calcDifficultyAdjustment easierBlocks (JS.of_Z 1000) None (JS.of_Z 1030)
      (JS.of_Z 114999) (JS.of_Z 5) "mainnet" (JS.of_Z 1000) = Ok s /\
    JS.isInteger (JS.of_Z 114999) = true /\
    estimatedRetargetDate s = JS.of_Z 1090000 /\
    adjustedTimeAvg s = JS.of_Z 60000 /\
    remainingTime s = JS.of_Z 60000 /\
    estimatedRetargetDate s =
      JS.add (JS.mul (JS.of_Z 1030) (JS.of_Z 1000)) (JS.of_Z 60000).
Proof.
  eexists. split; [vm_compute; reflexivity|]. split; [reflexivity|].
  split; [reflexivity|].
  apply (next_retarget_one_interval_ahead easierBlocks (JS.of_Z 1000)
           (JS.of_Z 1030) (JS.of_Z 114999) (JS.of_Z 5) "mainnet"
           (JS.of_Z 1000)); vm_compute; reflexivity.
Defined.
